(** * promtme: a shallow embedding of the prompt bot's core

    The development follows the three source files:
    - [config.py]  : constants, the two enumerations and the environment
                     check at import;
    - [utils.py]   : [split_into_chunks] and [RateLimiter];
    - [bot.py]     : [call_deepseek], [category_callback],
                     [handle_description], [handle_refinement], the menu
                     callbacks and [cmd_history].

    Python values are modelled as follows.  A [str] is a list of Unicode code
    points, so that [len], slicing and the 200-character preview count what
    Python counts.  An [int] is a [Z].  A reading of [time.monotonic()] is a
    rational number of seconds.  Exceptions are values of type [exn]; code that
    may raise returns a [Res]. *)

From Stdlib Require Import ZArith QArith List Bool Lia Lqa String Ascii
  Sorted DecimalString.
From stdpp Require Import gmap list.
Import ListNotations.

Local Open Scope Z_scope.

(* ===================================================================== *)
(** ** Python runtime primitives *)
(* ===================================================================== *)

Module Py.

(** A character is a Unicode code point; a string is a sequence of them. *)
Definition char : Type := N.
Definition str : Type := list char.

(** Literals of the source, which are ASCII, are written as Rocq strings. *)
Definition of_ascii (s : string) : str :=
  map N_of_ascii (list_ascii_of_string s).

Definition len {A : Type} (l : list A) : Z := Z.of_nat (length l).

(** Truthiness of a sequence: empty is false. *)
Definition truthy {A : Type} (l : list A) : bool :=
  match l with
  | [] => false
  | _ :: _ => true
  end.

(** Exceptions.  [OtherError cls msg] stands for any other subclass of
    [Exception], with its class name and the text [str(e)] gives. *)
Inductive exn : Type :=
| ValueError (msg : str)
| TypeError (msg : str)
| BadRequest (msg : str)
| OtherError (cls : string) (msg : str).

Definition exn_str (e : exn) : str :=
  match e with
  | ValueError m | TypeError m | BadRequest m | OtherError _ m => m
  end.

Inductive Res (A : Type) : Type :=
| Val (a : A)
| Exc (e : exn).
Arguments Val {A} a.
Arguments Exc {A} e.

(** [str.isspace] on one code point: the code points CPython's
    [_PyUnicode_IsWhitespace] accepts. *)
Definition isspace (c : char) : bool :=
  ((9 <=? c) && (c <=? 13) || (28 <=? c) && (c <=? 32)
   || (c =? 133) || (c =? 160) || (c =? 5760)
   || (8192 <=? c) && (c <=? 8202)
   || (c =? 8232) || (c =? 8233) || (c =? 8239) || (c =? 8287)
   || (c =? 12288))%N.

(** [s.lstrip()], [s.rstrip()], [s.strip()] with no argument. *)
Fixpoint lstrip (s : str) : str :=
  match s with
  | [] => []
  | c :: s' => if isspace c then lstrip s' else s
  end.

Definition rstrip (s : str) : str := rev (lstrip (rev s)).

Definition strip (s : str) : str := rstrip (lstrip s).

(** [s.split()] with no argument: maximal runs of non-whitespace, in order.
    [cur] holds, reversed, the run being read. *)
Fixpoint split_from (cur : str) (s : str) : list str :=
  match s with
  | [] => if truthy cur then [rev cur] else []
  | c :: s' =>
      if isspace c
      then (if truthy cur then rev cur :: split_from [] s' else split_from [] s')
      else split_from (c :: cur) s'
  end.

Definition split (s : str) : list str := split_from [] s.

(** [sep.join(l)]. *)
Fixpoint join (sep : str) (l : list str) : str :=
  match l with
  | [] => []
  | x :: rest =>
      match rest with
      | [] => x
      | _ :: _ => x ++ sep ++ join sep rest
      end
  end.

(** Index normalisation of a slice bound: negative bounds count from the
    end, and everything is clamped to [0, len]. *)
Definition clamp_index (n i : Z) : Z :=
  let i' := if i <? 0 then i + n else i in
  Z.max 0 (Z.min n i').

(** [s[i:j]]. *)
Definition slice {A : Type} (s : list A) (i j : Z) : list A :=
  let lo := clamp_index (len s) i in
  let hi := clamp_index (len s) j in
  take (Z.to_nat (hi - lo)) (drop (Z.to_nat lo) s).

(** [s[i:]]. *)
Definition slice_from {A : Type} (s : list A) (i : Z) : list A :=
  drop (Z.to_nat (clamp_index (len s) i)) s.

(** [s[:j]]. *)
Definition slice_to {A : Type} (s : list A) (j : Z) : list A :=
  take (Z.to_nat (clamp_index (len s) j)) s.

(** [range(start, stop, step)], as the list it iterates over.  A zero step
    raises [ValueError]. *)
Definition range_len (start stop step : Z) : Z :=
  if 0 <? step
  then (if start <? stop then (stop - start - 1) / step + 1 else 0)
  else (if stop <? start then (start - stop - 1) / (- step) + 1 else 0).

Definition range (start stop step : Z) : Res (list Z) :=
  if step =? 0
  then Exc (ValueError (of_ascii "range() arg 3 must not be zero"))
  else Val (map (fun k : nat => start + Z.of_nat k * step)
                (seq 0 (Z.to_nat (range_len start stop step)))).

End Py.
Import Py.

(* ===================================================================== *)
(** ** config.py *)
(* ===================================================================== *)

Module config.

Inductive ConversationState : Type :=
| MAIN_MENU
| AWAITING_DESCRIPTION
| PROMPT_SHOWN
| AWAITING_REFINEMENT.

Inductive Category : Type := IMAGE | CODE | VIDEO | TEXT.

(** The [value] of a member of the [str]-valued enumeration. *)
Definition Category_value (c : Category) : str :=
  match c with
  | IMAGE => of_ascii "image"
  | CODE => of_ascii "code"
  | VIDEO => of_ascii "video"
  | TEXT => of_ascii "text"
  end.

Definition str_eqb (a b : str) : bool := bool_decide (a = b).

(** [Category(value)]: lookup by value, [ValueError] when there is none.
    The message is Python's up to the quotes [repr] puts around the value;
    every caller drops it. *)
Definition Category_of_value (v : str) : Res Category :=
  if str_eqb v (Category_value IMAGE) then Val IMAGE
  else if str_eqb v (Category_value CODE) then Val CODE
  else if str_eqb v (Category_value VIDEO) then Val VIDEO
  else if str_eqb v (Category_value TEXT) then Val TEXT
  else Exc (ValueError (v ++ of_ascii " is not a valid Category")).

Definition MAX_MESSAGE_LENGTH : Z := 4096.
Definition DEEPSEEK_RETRY_ATTEMPTS : Z := 3.
Definition RATE_LIMIT_REQUESTS_PER_MINUTE : Z := 5.
Definition HISTORY_MAX_ITEMS : Z := 5.

End config.

(* ===================================================================== *)
(** ** utils.py: split_into_chunks *)
(* ===================================================================== *)

Module utils.

(** The inner loop over an over-long token:
    [for i in range(0, len(part), max_length): chunks.append(part[i : i + max_length])]
    returns the pieces it appends. *)
Definition hard_slices (part : str) (max_length : Z) : Res (list str) :=
  match range 0 (len part) max_length with
  | Exc e => Exc e
  | Val idx => Val (map (fun i => slice part i (i + max_length)) idx)
  end.

(** The [for part in text.split()] loop, with its three local variables,
    followed by the final flush. *)
Fixpoint pack (max_length : Z) (parts : list str)
         (chunks current : list str) (current_len : Z) : Res (list str) :=
  match parts with
  | [] =>
      Val (if truthy current then chunks ++ [join (of_ascii " ") current] else chunks)
  | part :: rest =>
      let part_len := len part + (if truthy current then 1 else 0) in
      if current_len + part_len <=? max_length
      then pack max_length rest chunks (current ++ [part]) (current_len + part_len)
      else
        let chunks :=
          if truthy current then chunks ++ [join (of_ascii " ") current] else chunks in
        if max_length <? len part
        then
          match hard_slices part max_length with
          | Exc e => Exc e
          | Val pieces => pack max_length rest (chunks ++ pieces) [] 0
          end
        else pack max_length rest chunks [part] (len part + 1)
  end.

Definition split_into_chunks (text : str) (max_length : Z) : Res (list str) :=
  if negb (truthy text) then Val []
  else if len text <=? max_length then Val [text]
  else pack max_length (split text) [] [] 0.

End utils.
Import utils.

(* ===================================================================== *)
(** ** utils.py: RateLimiter *)
(* ===================================================================== *)

Module RateLimiter.

(** The object: [max_per_minute] and the [defaultdict(list)] of
    timestamps per user id. *)
Record t : Type := mk {
  max_per_minute : Z;
  _timestamps : gmap Z (list Q);
}.

Definition __init__ (max_per_minute : Z) : t :=
  {| max_per_minute := max_per_minute; _timestamps := ∅ |}.

(** [d[k]] on a [defaultdict(list)]: a missing key reads as the empty list. *)
Definition getitem (d : gmap Z (list Q)) (k : Z) : list Q :=
  default [] (d !! k).

(** [a > b] on clock readings. *)
Definition Qgtb (a b : Q) : bool := negb (Qle_bool a b).

(** [is_allowed(user_id)], with the clock reading [now] it takes on entry. *)
Definition is_allowed (now : Q) (user_id : Z) (self : t) : bool * t :=
  let cutoff := (now - 60)%Q in
  let kept := List.filter (fun t => Qgtb t cutoff) (getitem (_timestamps self) user_id) in
  let d := <[user_id := kept]> (_timestamps self) in
  if max_per_minute self <=? len (getitem d user_id)
  then (false, {| max_per_minute := max_per_minute self; _timestamps := d |})
  else (true, {| max_per_minute := max_per_minute self;
                 _timestamps := <[user_id := getitem d user_id ++ [now]]> d |}).

(** A sequence of calls, each with its clock reading and user id, run in
    order on one limiter; the answers are kept with the user they went to. *)
Fixpoint run (calls : list (Q * Z)) (self : t) : list (Z * bool) * t :=
  match calls with
  | [] => ([], self)
  | (now, user_id) :: rest =>
      let (ok, self1) := is_allowed now user_id self in
      let (answers, self2) := run rest self1 in
      ((user_id, ok) :: answers, self2)
  end.

Definition for_user {A : Type} (u : Z) (xs : list (A * Z)) : list (A * Z) :=
  List.filter (fun x => Z.eqb (snd x) u) xs.

(** The answers user [u] received, in order. *)
Definition answers_to (u : Z) (answers : list (Z * bool)) : list bool :=
  map snd (List.filter (fun a => Z.eqb (fst a) u) answers).

(** One user's window followed on its own. *)
Definition window_step (limit : Z) (now : Q) (w : list Q) : bool * list Q :=
  let kept := List.filter (fun t => Qgtb t (now - 60)%Q) w in
  if limit <=? len kept then (false, kept) else (true, kept ++ [now]).

Fixpoint window_run (limit : Z) (times : list Q) (w : list Q) : list bool :=
  match times with
  | [] => []
  | now :: rest =>
      let (ok, w1) := window_step limit now w in
      ok :: window_run limit rest w1
  end.

(** The purge as the specification words it, "timestamps older than
    now - 60s are purged": what remains is every timestamp that is not older. *)
Definition remaining_as_worded (now : Q) (w : list Q) : list Q :=
  List.filter (fun t => Qle_bool (now - 60)%Q t) w.

End RateLimiter.

(* ===================================================================== *)
(** ** bot.py *)
(* ===================================================================== *)

Module bot.
Import config.

(** *** What the handlers see and touch *)

(** Texts handed to the chat platform: the constants of [config.py], kept
    by name, and generated text. *)
Inductive Text : Type :=
| MSG_CHOOSE_CATEGORY
| MSG_SENDING
| MSG_ERROR_NETWORK
| MSG_ERROR_API
| MSG_ERROR_UNKNOWN
| MSG_HERE_PROMPT
| MSG_RATE_LIMIT
| MSG_APPROVE_OR_REFINE
| MSG_SEND_REFINEMENT
| PROMPT_MESSAGES (c : Category)
| Generated (s : str).

Inductive Keyboard : Type :=
| category_keyboard
| awaiting_keyboard
| approve_refine_keyboard.

Inductive SystemPrompt : Type :=
| SYSTEM_PROMPTS (c : Category)
| REFINEMENT_SYSTEM_PROMPT.

(** Calls to the chat platform.  [markdown] is [parse_mode="Markdown"]. *)
Inductive BotCall : Type :=
| reply_text (text : Text) (reply_markup : option Keyboard) (markdown : bool)
| send_message (chat_id : Z) (text : Text) (reply_markup : option Keyboard)
| answer_query
| status_delete
| status_edit_text (text : Text).

(** The calls that send something to the user, as opposed to the two calls
    that touch the status message. *)
Definition is_reply (c : BotCall) : bool :=
  match c with
  | reply_text _ _ _ | send_message _ _ _ | answer_query => true
  | status_delete | status_edit_text _ => false
  end.

(** One item of [user_data["history"]]. *)
Record HistoryEntry : Type := {
  he_category : str;
  he_text : str;
}.

(** [context.user_data], the per-user dictionary, by its five keys.  A key
    that is absent reads as [None]; a history that is absent or empty reads
    as the empty list, which is all [get("history") or []] can tell. *)
Record UserData : Type := {
  ud_category : option str;
  ud_history : list HistoryEntry;
  ud_last_prompt : option str;
  ud_last_category : option str;
  ud_original_description : option str;
}.

Definition empty_user_data : UserData :=
  {| ud_category := None; ud_history := []; ud_last_prompt := None;
     ud_last_category := None; ud_original_description := None |}.

Record CallbackQuery : Type := {
  cq_data : option str;
  cq_message_chat_id : option Z;
}.

Record Update : Type := {
  effective_user : option Z;
  effective_chat : option Z;
  message_text : option str;
  callback_query : option CallbackQuery;
}.

(** Everything a handler can change, and the traces of what it did. *)
Record World : Type := {
  user_data : UserData;
  rate_limiter : RateLimiter.t;
  telegram_log : list BotCall;
  completion_log : list (SystemPrompt * str);
  sleep_log : list Z;
}.

(** What the outside answers during one handler call: the clock reading
    [is_allowed] takes, the outcome of the completion request of each
    attempt (the content of the first choice, or an exception), and the
    outcome of each call to the chat platform ([None]: delivered). *)
Record Env : Type := {
  env_now : Q;
  env_completion : nat -> Res (option str);
  env_telegram : nat -> BotCall -> option exn;
}.

(** *** The monad of handlers: state and exceptions *)

Definition M (A : Type) : Type := Env -> World -> Res A * World.

Definition ret {A : Type} (a : A) : M A := fun _ w => (Val a, w).

Definition raise {A : Type} (e : exn) : M A := fun _ w => (Exc e, w).

Definition bind {A B : Type} (m : M A) (f : A -> M B) : M B :=
  fun env w =>
    match m env w with
    | (Val a, w1) => f a env w1
    | (Exc e, w1) => (Exc e, w1)
    end.

(** [try: body / except Exception as e: handler e]. *)
Definition try_except {A : Type} (body : M A) (handler : exn -> M A) : M A :=
  fun env w =>
    match body env w with
    | (Val a, w1) => (Val a, w1)
    | (Exc e, w1) => handler e env w1
    end.

(** [try: body / except BadRequest: pass]. *)
Definition try_except_BadRequest_pass (body : M unit) : M unit :=
  fun env w =>
    match body env w with
    | (Exc (BadRequest _), w1) => (Val tt, w1)
    | r => r
    end.

Declare Scope handler_scope.
Delimit Scope handler_scope with handler.
Notation "x <- m ;; k" := (bind m (fun x => k))
  (at level 100, m at next level, right associativity) : handler_scope.
Notation "m ;; k" := (bind m (fun _ => k))
  (at level 100, right associativity) : handler_scope.
Local Open Scope handler_scope.

(** The five ways a handler changes the world. *)
Definition with_user_data (f : UserData -> UserData) (w : World) : World :=
  {| user_data := f (user_data w); rate_limiter := rate_limiter w;
     telegram_log := telegram_log w; completion_log := completion_log w;
     sleep_log := sleep_log w |}.

Definition with_rate_limiter (rl : RateLimiter.t) (w : World) : World :=
  {| user_data := user_data w; rate_limiter := rl;
     telegram_log := telegram_log w; completion_log := completion_log w;
     sleep_log := sleep_log w |}.

Definition log_telegram (c : BotCall) (w : World) : World :=
  {| user_data := user_data w; rate_limiter := rate_limiter w;
     telegram_log := telegram_log w ++ [c];
     completion_log := completion_log w; sleep_log := sleep_log w |}.

Definition log_completion (request : SystemPrompt * str) (w : World) : World :=
  {| user_data := user_data w; rate_limiter := rate_limiter w;
     telegram_log := telegram_log w;
     completion_log := completion_log w ++ [request];
     sleep_log := sleep_log w |}.

Definition log_sleep (seconds : Z) (w : World) : World :=
  {| user_data := user_data w; rate_limiter := rate_limiter w;
     telegram_log := telegram_log w; completion_log := completion_log w;
     sleep_log := sleep_log w ++ [seconds] |}.

Definition get_user_data : M UserData := fun _ w => (Val (user_data w), w).

Definition set_user_data (f : UserData -> UserData) : M unit :=
  fun _ w => (Val tt, with_user_data f w).

(** One call to the chat platform: logged, then delivered or raising. *)
Definition telegram (c : BotCall) : M unit :=
  fun env w =>
    match env_telegram env (length (telegram_log w)) c with
    | None => (Val tt, log_telegram c w)
    | Some e => (Exc e, log_telegram c w)
    end.

(** [await asyncio.sleep(seconds)]. *)
Definition sleep (seconds : Z) : M unit :=
  fun _ w => (Val tt, log_sleep seconds w).

(** [await client.chat.completions.create(...)] followed by
    [response.choices[0].message.content]. *)
Definition create_completion (attempt : Z) (system_prompt : SystemPrompt)
           (user_message : str) : M (option str) :=
  fun env w =>
    (env_completion env (Z.to_nat attempt),
     log_completion (system_prompt, user_message) w).

(** [rate_limiter.is_allowed(user_id)] on the module-level limiter. *)
Definition rate_limiter_is_allowed (user_id : Z) : M bool :=
  fun env w =>
    let (ok, rl) := RateLimiter.is_allowed (env_now env) user_id (rate_limiter w) in
    (Val ok, with_rate_limiter rl w).

(** [for x in xs: body x]. *)
Fixpoint for_each {A : Type} (xs : list A) (body : A -> M unit) : M unit :=
  match xs with
  | [] => ret tt
  | x :: rest => body x ;; for_each rest body
  end.

(** *** call_deepseek *)

Definition empty_response : exn :=
  ValueError (of_ascii "Empty response from DeepSeek").

(** The body of the [try] of one attempt. *)
Definition attempt_once (attempt : Z) (system_prompt : SystemPrompt)
           (user_message : str) : M str :=
  content <- create_completion attempt system_prompt user_message ;;
  match content with
  | None => raise empty_response
  | Some content =>
      if negb (truthy content) || negb (truthy (strip content))
      then raise empty_response
      else ret (strip content)
  end.

(** The [for attempt in range(...)] loop with its [last_error], and the
    [raise last_error] after it. *)
Fixpoint retry_loop (system_prompt : SystemPrompt) (user_message : str)
         (attempts : list Z) (last_error : option exn) : M str :=
  match attempts with
  | [] =>
      match last_error with
      | Some e => raise e
      | None => raise (TypeError (of_ascii "exceptions must derive from BaseException"))
      end
  | attempt :: rest =>
      try_except
        (attempt_once attempt system_prompt user_message)
        (fun e =>
           (if attempt <? DEEPSEEK_RETRY_ATTEMPTS - 1
            then sleep (2 ^ attempt)
            else ret tt) ;;
           retry_loop system_prompt user_message rest (Some e))
  end.

Definition call_deepseek (system_prompt : SystemPrompt) (user_message : str) : M str :=
  match range 0 DEEPSEEK_RETRY_ATTEMPTS 1 with
  | Val attempts => retry_loop system_prompt user_message attempts None
  | Exc e => raise e
  end.

(** *** The handlers *)

(** [needle in hay]. *)
Fixpoint starts_with (needle hay : str) : bool :=
  match needle, hay with
  | [], _ => true
  | _ :: _, [] => false
  | a :: needle', b :: hay' => N.eqb a b && starts_with needle' hay'
  end.

Fixpoint contains (needle hay : str) : bool :=
  starts_with needle hay
  || match hay with
     | [] => false
     | _ :: hay' => contains needle hay'
     end.

(** The item appended to the history: the category value and a preview of
    at most 200 characters, with an ellipsis when something was cut. *)
Definition ELLIPSIS : str := [8230%N].

Definition history_entry (category_value result : str) : HistoryEntry :=
  {| he_category := category_value;
     he_text := slice_to result 200
                ++ (if 200 <? len result then ELLIPSIS else []) |}.

(** [history.append(item); user_data["history"] = history[-HISTORY_MAX_ITEMS:]].
    The append works on the stored list itself when there is one; the
    assignment that follows replaces it, so only the sliced copy is kept. *)
Definition remember (item : HistoryEntry) (ud : UserData) : UserData :=
  {| ud_category := ud_category ud;
     ud_history := slice_from (ud_history ud ++ [item]) (- HISTORY_MAX_ITEMS);
     ud_last_prompt := ud_last_prompt ud;
     ud_last_category := ud_last_category ud;
     ud_original_description := ud_original_description ud |}.

Definition set_category (v : str) (ud : UserData) : UserData :=
  {| ud_category := Some v;
     ud_history := ud_history ud;
     ud_last_prompt := ud_last_prompt ud;
     ud_last_category := ud_last_category ud;
     ud_original_description := ud_original_description ud |}.

Definition set_last_prompt (result : str) (ud : UserData) : UserData :=
  {| ud_category := ud_category ud;
     ud_history := ud_history ud;
     ud_last_prompt := Some result;
     ud_last_category := ud_last_category ud;
     ud_original_description := ud_original_description ud |}.

Definition set_generated (result category_value user_text : str)
           (ud : UserData) : UserData :=
  {| ud_category := ud_category ud;
     ud_history := ud_history ud;
     ud_last_prompt := Some result;
     ud_last_category := Some category_value;
     ud_original_description := Some user_text |}.

(** Sending the result: in one message when it fits, in chunks otherwise. *)
Definition send_result (result : str) : M unit :=
  if len result <=? MAX_MESSAGE_LENGTH
  then telegram (reply_text (Generated result) None false)
  else
    match split_into_chunks result MAX_MESSAGE_LENGTH with
    | Exc e => raise e
    | Val chunks =>
        for_each chunks (fun chunk => telegram (reply_text (Generated chunk) None false))
    end.

Definition choose_category_menu : M ConversationState :=
  telegram (reply_text MSG_CHOOSE_CATEGORY (Some category_keyboard) true) ;;
  ret MAIN_MENU.

Definition user_id_of (update : Update) : Z :=
  match effective_user update with
  | Some id => id
  | None => 0
  end.

(** [(update.message.text or "").strip()]. *)
Definition stripped_text (update : Update) : str :=
  strip (default [] (message_text update)).

Section WithLower.

(** [str.lower], a table of the Python runtime. *)
Variable lower : str -> str.

(** The choice of [err_msg] in both [except] blocks. *)
Definition error_text (e : exn) : Text :=
  let s := exn_str e in
  if contains (of_ascii "timeout") (lower s)
     || contains (of_ascii "connection") (lower s)
  then MSG_ERROR_NETWORK
  else if contains (of_ascii "api_key") (lower s)
          || contains (of_ascii "401") s
          || contains (of_ascii "429") s
  then MSG_ERROR_API
  else MSG_ERROR_UNKNOWN.

(** [try: await status_msg.edit_text(err_msg) / except Exception:
    await update.message.reply_text(err_msg)]. *)
Definition report_error (e : exn) : M unit :=
  try_except
    (telegram (status_edit_text (error_text e)))
    (fun _ => telegram (reply_text (error_text e) None true)).

Definition handle_description (update : Update) : M ConversationState :=
  let user_id := user_id_of update in
  ud <- get_user_data ;;
  match ud_category ud with
  | None => choose_category_menu
  | Some category_value =>
      if negb (truthy category_value) then choose_category_menu
      else
        match Category_of_value category_value with
        | Exc (ValueError _) => choose_category_menu
        | Exc e => raise e
        | Val category =>
            let user_text := stripped_text update in
            if negb (truthy user_text)
            then
              telegram (reply_text (PROMPT_MESSAGES category)
                                   (Some awaiting_keyboard) true) ;;
              ret AWAITING_DESCRIPTION
            else
              allowed <- rate_limiter_is_allowed user_id ;;
              if negb allowed
              then
                telegram (reply_text MSG_RATE_LIMIT None true) ;;
                ret AWAITING_DESCRIPTION
              else
                telegram (reply_text MSG_SENDING None true) ;;
                try_except
                  (result <- call_deepseek (SYSTEM_PROMPTS category) user_text ;;
                   try_except_BadRequest_pass (telegram status_delete) ;;
                   set_user_data (remember (history_entry category_value result)) ;;
                   telegram (reply_text MSG_HERE_PROMPT None true) ;;
                   send_result result ;;
                   set_user_data (set_generated result category_value user_text) ;;
                   telegram (reply_text MSG_APPROVE_OR_REFINE
                                        (Some approve_refine_keyboard) true) ;;
                   ret PROMPT_SHOWN)
                  (fun e =>
                     report_error e ;;
                     telegram (reply_text MSG_CHOOSE_CATEGORY
                                          (Some category_keyboard) true) ;;
                     ret MAIN_MENU)
        end
  end.

(** The f-string sent as the user message of a refinement. *)
Definition refinement_message (last_prompt user_text : str) : str :=
  of_ascii "Current prompt:" ++ [10%N] ++ last_prompt ++ [10%N; 10%N]
  ++ of_ascii "User's requested changes or additions:" ++ [10%N] ++ user_text.

Definition handle_refinement (update : Update) : M ConversationState :=
  let user_id := user_id_of update in
  ud <- get_user_data ;;
  match ud_last_prompt ud with
  | None => choose_category_menu
  | Some last_prompt =>
      if negb (truthy last_prompt) then choose_category_menu
      else
        let user_text := stripped_text update in
        if negb (truthy user_text)
        then
          telegram (reply_text MSG_SEND_REFINEMENT (Some awaiting_keyboard) true) ;;
          ret AWAITING_REFINEMENT
        else
          allowed <- rate_limiter_is_allowed user_id ;;
          if negb allowed
          then
            telegram (reply_text MSG_RATE_LIMIT None true) ;;
            ret AWAITING_REFINEMENT
          else
            let user_message := refinement_message last_prompt user_text in
            telegram (reply_text MSG_SENDING None true) ;;
            try_except
              (result <- call_deepseek REFINEMENT_SYSTEM_PROMPT user_message ;;
               try_except_BadRequest_pass (telegram status_delete) ;;
               set_user_data (set_last_prompt result) ;;
               telegram (reply_text MSG_HERE_PROMPT None true) ;;
               send_result result ;;
               telegram (reply_text MSG_APPROVE_OR_REFINE
                                    (Some approve_refine_keyboard) true) ;;
               ret PROMPT_SHOWN)
              (fun e =>
                 report_error e ;;
                 telegram (reply_text MSG_APPROVE_OR_REFINE
                                      (Some approve_refine_keyboard) true) ;;
                 ret PROMPT_SHOWN)
  end.

End WithLower.

(** [category_callback]: the user tapped a category button. *)
Definition category_callback (update : Update) : M ConversationState :=
  match callback_query update with
  | None => ret MAIN_MENU
  | Some query =>
      telegram answer_query ;;
      let data := default [] (cq_data query) in
      match Category_of_value data with
      | Exc (ValueError _) => ret MAIN_MENU
      | Exc e => raise e
      | Val category =>
          set_user_data (set_category (Category_value category)) ;;
          let chat_id :=
            match cq_message_chat_id query with
            | Some c => if c =? 0 then effective_chat update else Some c
            | None => effective_chat update
            end in
          match chat_id with
          | None => ret MAIN_MENU
          | Some chat_id =>
              telegram (send_message chat_id (PROMPT_MESSAGES category)
                                     (Some awaiting_keyboard)) ;;
              ret AWAITING_DESCRIPTION
          end
      end
  end.

End bot.

(** A token, as [str.split] produces them: non-empty and free of whitespace. *)
Definition no_space (t : str) : Prop :=
  forallb (fun c => negb (isspace c)) t = true.

Definition is_token (t : str) : Prop := t <> [] /\ no_space t.

Definition all_space (t : str) : Prop := forallb isspace t = true.

(** ** What one attempt of the completion client yields

    The outcome of the [try] body of [call_deepseek] as a function of what the
    transport answered: the stripped content, or the exception the attempt
    ends with. *)

Definition blank (content : option str) : Prop :=
  match content with
  | None => True
  | Some c => all_space c
  end.

Definition attempt_result (answer : Res (option str)) : Res str :=
  match answer with
  | Exc e => Exc e
  | Val None => Exc bot.empty_response
  | Val (Some c) =>
      if negb (truthy c) || negb (truthy (strip c))
      then Exc bot.empty_response
      else Val (strip c)
  end.

(** The world after one more completion request and, when the attempt failed
    and was not the last one allowed, the back-off sleep. *)
Definition after_attempt (attempt : Z) (request : bot.SystemPrompt * str)
           (failed : bool) (w : bot.World) : bot.World :=
  let w1 := bot.log_completion request w in
  if failed && (attempt <? config.DEEPSEEK_RETRY_ATTEMPTS - 1)
  then bot.log_sleep (2 ^ attempt) w1
  else w1.

(** What [call_deepseek] ends with, read off the answers to its three
    attempts: the first value, or else the error of the last attempt. *)
Definition completion_outcome (env : bot.Env) : Res str :=
  match attempt_result (bot.env_completion env 0) with
  | Val v => Val v
  | Exc _ =>
      match attempt_result (bot.env_completion env 1) with
      | Val v => Val v
      | Exc _ => attempt_result (bot.env_completion env 2)
      end
  end.

(** The world [call_deepseek] leaves: one request per attempt made, and a
    sleep of 1 and then 2 seconds between attempts. *)
Definition completion_world (request : bot.SystemPrompt * str)
           (env : bot.Env) (w : bot.World) : bot.World :=
  let once := bot.log_completion request in
  match attempt_result (bot.env_completion env 0) with
  | Val _ => once w
  | Exc _ =>
      match attempt_result (bot.env_completion env 1) with
      | Val _ => once (bot.log_sleep 1 (once w))
      | Exc _ => once (bot.log_sleep 2 (once (bot.log_sleep 1 (once w))))
      end
  end.

(** ** Reasoning about handlers

    [wp m env w Q]: running [m] in world [w] against the answers of [env]
    ends, by a value or by an exception, in a world for which [Q] holds. *)

Definition wp {A : Type} (m : bot.M A) (env : bot.Env) (w : bot.World)
           (Q : Res A -> bot.World -> Prop) : Prop :=
  Q (fst (m env w)) (snd (m env w)).

(** The chat platform delivers every message it is asked to send; deleting
    or editing the status message may still fail. *)
Definition delivers (env : bot.Env) : Prop :=
  forall k c, bot.is_reply c = true -> bot.env_telegram env k c = None.

(** Deleting the status message succeeds or fails with [BadRequest]. *)
Definition delete_is_benign (env : bot.Env) : Prop :=
  forall k,
    bot.env_telegram env k bot.status_delete = None
    \/ exists msg, bot.env_telegram env k bot.status_delete = Some (BadRequest msg).

(** A handler call, from one world to the next, the conversation state it
    returned aside. *)
Definition same_but_logs (w w' : bot.World) : Prop :=
  bot.user_data w' = bot.user_data w /\ bot.rate_limiter w' = bot.rate_limiter w.

(** ** What a handler call can end with

    [description_outcome] lists the ways [handle_description] ends: without
    calling the completion client; after a failed call; or after a call that
    returned [result], in which case either the whole transition went through
    or the chat platform let it down part of the way. *)

Definition description_outcome (update : bot.Update) (env : bot.Env) (w : bot.World)
           (r : Res config.ConversationState) (w' : bot.World) : Prop :=
  (bot.completion_log w' = bot.completion_log w
   /\ bot.user_data w' = bot.user_data w
   /\ r <> Val config.PROMPT_SHOWN)
  \/ (bot.completion_log w' <> bot.completion_log w
      /\ exists cv,
          bot.ud_category (bot.user_data w) = Some cv
          /\ match completion_outcome env with
             | Exc _ =>
                 bot.user_data w' = bot.user_data w
                 /\ (forall s, r = Val s -> s = config.MAIN_MENU)
                 /\ (delivers env -> r = Val config.MAIN_MENU)
             | Val result =>
                 (r = Val config.PROMPT_SHOWN
                  /\ bot.user_data w'
                     = bot.set_generated result cv (bot.stripped_text update)
                         (bot.remember (bot.history_entry cv result) (bot.user_data w)))
                 \/ (r <> Val config.PROMPT_SHOWN
                     /\ ~ (delivers env /\ delete_is_benign env)
                     /\ (bot.user_data w' = bot.user_data w
                         \/ bot.user_data w'
                            = bot.remember (bot.history_entry cv result) (bot.user_data w)
                         \/ bot.user_data w'
                            = bot.set_generated result cv (bot.stripped_text update)
                                (bot.remember (bot.history_entry cv result)
                                              (bot.user_data w))))
             end).

Definition refinement_outcome (env : bot.Env) (w : bot.World)
           (r : Res config.ConversationState) (w' : bot.World) : Prop :=
  bot.ud_history (bot.user_data w') = bot.ud_history (bot.user_data w)
  /\ ((bot.completion_log w' = bot.completion_log w
       /\ bot.user_data w' = bot.user_data w)
      \/ (bot.completion_log w' <> bot.completion_log w
          /\ (forall s, r = Val s -> s = config.PROMPT_SHOWN)
          /\ match completion_outcome env with
             | Exc _ =>
                 bot.user_data w' = bot.user_data w
                 /\ (delivers env -> r = Val config.PROMPT_SHOWN)
             | Val result =>
                 (bot.user_data w' = bot.user_data w
                  /\ ~ (delivers env /\ delete_is_benign env))
                 \/ (bot.user_data w' = bot.set_last_prompt result (bot.user_data w)
                     /\ (delivers env -> r = Val config.PROMPT_SHOWN))
             end)).

(** ** Sessions

    [session lower w0 gens w]: one user's world [w] is reached from [w0] by
    handler calls, whatever the completion client and the chat platform
    answer.  [gens] lists, oldest first, the generations that changed the
    user data: those that went through and returned [PROMPT_SHOWN], and
    those that were interrupted by a failing call to the platform after the
    history item was written.  Every other call of [handle_description]
    leaves the user data as it was. *)

#[global] Instance HistoryEntry_eq_dec : EqDecision bot.HistoryEntry.
Proof. solve_decision. Defined.

#[global] Instance UserData_eq_dec : EqDecision bot.UserData.
Proof. solve_decision. Defined.




(** ** Sample inputs *)

Module sample.
Import config bot.

(** [str.lower] on ASCII letters. *)
Definition ascii_lower (s : str) : str :=
  map (fun c => if (65 <=? c) && (c <=? 90) then c + 32 else c)%N s.

Definition timeout_error : exn :=
  OtherError "APITimeoutError" (of_ascii "Request timed out.").

Definition working_platform : nat -> BotCall -> option exn := fun _ _ => None.

(** The transport answers [text] at once. *)
Definition env_answering (now : Q) (text : str) : Env :=
  {| env_now := now;
     env_completion := fun _ => Val (Some text);
     env_telegram := working_platform |}.

(** The transport times out twice, then answers. *)
Definition env_flaky : Env :=
  {| env_now := 0%Q;
     env_completion :=
       fun k => match k with
                | 0%nat | 1%nat => Exc timeout_error
                | _ => Val (Some (of_ascii " Write a REST API "))
                end;
     env_telegram := working_platform |}.

(** The transport always times out. *)
Definition env_failing : Env :=
  {| env_now := 0%Q;
     env_completion := fun _ => Exc timeout_error;
     env_telegram := working_platform |}.

(** The transport always answers with spaces. *)
Definition env_blank : Env :=
  {| env_now := 0%Q;
     env_completion := fun _ => Val (Some (of_ascii "   "));
     env_telegram := working_platform |}.

Definition fresh_world : World :=
  {| user_data := empty_user_data;
     rate_limiter := RateLimiter.__init__ RATE_LIMIT_REQUESTS_PER_MINUTE;
     telegram_log := []; completion_log := []; sleep_log := [] |}.

Definition text_update (text : string) : Update :=
  {| effective_user := Some 7; effective_chat := Some 7;
     message_text := Some (of_ascii text); callback_query := None |}.

(** The user picked "code". *)
Definition code_chosen : World :=
  with_user_data (set_category (Category_value CODE)) fresh_world.

(** The user has a prompt on the screen. *)
Definition prompt_shown : World :=
  with_user_data (set_last_prompt (of_ascii "Write a REST API")) code_chosen.

(** One description sent at clock reading [now], answered by [answer]. *)
Definition generate (now : Q) (answer : string) (w : World) : World :=
  snd (handle_description ascii_lower (text_update "an idea")
                          (env_answering now (of_ascii answer)) w).

Definition item (answer : string) : HistoryEntry :=
  history_entry (Category_value CODE) (of_ascii answer).

Definition six_generations : World :=
  generate 100 "p6"
    (generate 80 "p5"
       (generate 60 "p4"
          (generate 40 "p3"
             (generate 20 "p2"
                (generate 0 "p1" code_chosen))))).

End sample.

(** ** How the chunks cover the tokens

    The output of the packing loop is read as a sequence of segments: a line
    of packed tokens, which becomes one chunk, or one over-long token, which
    becomes its hard slices. *)

Inductive segment : Type :=
| Line (tokens : list str)
| Sliced (token : str).

Definition seg_tokens (g : segment) : list str :=
  match g with
  | Line ts => ts
  | Sliced t => [t]
  end.

Definition seg_chunks (max_length : Z) (g : segment) : list str :=
  match g with
  | Line ts => [join (of_ascii " ") ts]
  | Sliced t =>
      match hard_slices t max_length with
      | Val pieces => pieces
      | Exc _ => []
      end
  end.

(** The text a segment stands for: its chunks put back together, a line as
    it is and the slices of an over-long token with nothing in between. *)
Definition seg_text (max_length : Z) (g : segment) : str :=
  concat (seg_chunks max_length g).

Definition seg_ok (max_length : Z) (g : segment) : Prop :=
  match g with
  | Line ts => ts <> [] /\ Forall (fun t => len t <= max_length) ts
               /\ len (join (of_ascii " ") ts) <= max_length
  | Sliced t => max_length < len t
  end.

(** What the loop variables of [pack] satisfy between iterations:
    [current_len] never undercounts the joined line, the line fits, and so
    does each token in it. *)
Definition pack_inv (max_length : Z) (current : list str) (current_len : Z) : Prop :=
  len (join (of_ascii " ") current) <= current_len
  /\ len (join (of_ascii " ") current) <= max_length
  /\ Forall (fun t => len t <= max_length) current.

(** Number of pieces an over-long token is cut into. *)
Definition ceil_div (n d : Z) : Z := (n + d - 1) / d.

(* ===================================================================== *)
(** ** More of the program

    The definitions below cover the code around the claims: what the rate
    limiter keeps, the gate in front of the completion client, the log of
    platform calls, the environment check of [config.py], the menu
    callbacks and the history command. *)

Module RateLimiterMore.
Import RateLimiter.

(** The window one user is left with after calls at the given times. *)
Fixpoint window_after (limit : Z) (times : list Q) (w : list Q) : list Q :=
  match times with
  | [] => w
  | now :: rest => window_after limit rest (snd (window_step limit now w))
  end.

(** The times of the calls that were let through. *)
Fixpoint accepted (limit : Z) (times : list Q) (w : list Q) : list Q :=
  match times with
  | [] => []
  | now :: rest =>
      let (ok, w1) := window_step limit now w in
      if ok then now :: accepted limit rest w1 else accepted limit rest w1
  end.

(** The times at which user [u] was let through during a run. *)
Definition accepted_for (u : Z) (calls : list (Q * Z)) (self : t) : list Q :=
  map fst (List.filter snd
             (combine (map fst (for_user u calls))
                      (answers_to u (fst (run calls self))))).

(** How many of the given times lie in the 60 seconds before [now]. *)
Definition recent (now : Q) (times : list Q) : Z :=
  len (List.filter (fun t => Qgtb t (now - 60)%Q) times).

End RateLimiterMore.

(** The category the session holds, when the stored value names one. *)
Definition stored_category (ud : bot.UserData) : option config.Category :=
  match bot.ud_category ud with
  | Some cv =>
      match config.Category_of_value cv with
      | Val c => Some c
      | Exc _ => None
      end
  | None => None
  end.

(** The prompt a refinement starts from, when one is stored and not empty. *)
Definition stored_prompt (ud : bot.UserData) : option str :=
  match bot.ud_last_prompt ud with
  | Some p => if truthy p then Some p else None
  | None => None
  end.

(** The ways a text handler passes the rate limiter, for a handler that
    would send [request] and waits in [waiting]: it gives up before asking
    (nothing to work on, or a blank text), it is refused, or it is let through
    and the completion client gets one to three copies of the request. *)
Definition gate_outcome (ready : bool) (request : bot.SystemPrompt * str)
           (waiting menu : config.ConversationState)
           (update : bot.Update) (env : bot.Env) (w : bot.World)
           (r : Res config.ConversationState) (w' : bot.World) : Prop :=
  let asked := RateLimiter.is_allowed (bot.env_now env) (bot.user_id_of update)
                                      (bot.rate_limiter w) in
  (ready = false
   /\ bot.rate_limiter w' = bot.rate_limiter w
   /\ bot.completion_log w' = bot.completion_log w
   /\ bot.user_data w' = bot.user_data w
   /\ (forall s, r = Val s -> s = menu)
   /\ (delivers env -> r = Val menu))
  \/ (ready = true /\ bot.stripped_text update = []
      /\ bot.rate_limiter w' = bot.rate_limiter w
      /\ bot.completion_log w' = bot.completion_log w
      /\ bot.user_data w' = bot.user_data w
      /\ (forall s, r = Val s -> s = waiting)
      /\ (delivers env -> r = Val waiting))
  \/ (ready = true /\ bot.stripped_text update <> []
      /\ fst asked = false
      /\ bot.rate_limiter w' = snd asked
      /\ bot.completion_log w' = bot.completion_log w
      /\ bot.user_data w' = bot.user_data w
      /\ (forall s, r = Val s -> s = waiting)
      /\ (delivers env -> r = Val waiting))
  \/ (ready = true /\ bot.stripped_text update <> []
      /\ fst asked = true
      /\ bot.rate_limiter w' = snd asked
      /\ ((bot.completion_log w' = bot.completion_log w
           /\ bot.user_data w' = bot.user_data w
           /\ ~ delivers env)
          \/ exists n : nat,
              (1 <= n <= 3)%nat
              /\ bot.completion_log w'
                 = bot.completion_log w ++ repeat request n)).

(** The call that sends one piece of generated text: plain, no keyboard. *)
Definition generated_reply (s : str) : bot.BotCall :=
  bot.reply_text (bot.Generated s) None false.

(** The pieces [send_result] sends for a result. *)
Definition result_messages (result : str) : list str :=
  if len result <=? config.MAX_MESSAGE_LENGTH
  then [result]
  else match split_into_chunks result config.MAX_MESSAGE_LENGTH with
       | Val chunks => chunks
       | Exc _ => []
       end.

(** A text the chat platform accepts: generated text must be non-empty and
    within the message length limit. *)
Definition text_fits (t : bot.Text) : Prop :=
  match t with
  | bot.Generated s => s <> [] /\ len s <= config.MAX_MESSAGE_LENGTH
  | _ => True
  end.

Definition sendable (c : bot.BotCall) : Prop :=
  match c with
  | bot.reply_text t _ _ => text_fits t
  | bot.send_message _ t _ => text_fits t
  | bot.status_edit_text t => text_fits t
  | bot.answer_query | bot.status_delete => True
  end.

(** What a handler call adds to the log of platform calls is all sendable. *)
Definition adds_sendable (w w' : bot.World) : Prop :=
  exists added,
    bot.telegram_log w' = bot.telegram_log w ++ added /\ Forall sendable added.

(** ** config.py: the environment check at import *)

Module environment.

Section RequireEnv.

(** The path of the [.env] file beside the script, which the message of the
    error quotes. *)
Variable _env_path : str.

Definition not_set (name : str) : exn :=
  OtherError "RuntimeError"
             (name ++ of_ascii " is not set. Add it to .env (path: " ++ _env_path
              ++ of_ascii "). Format: KEY=value, no spaces around =.").

(** [_require_env(name)], with [os.getenv] as a function of the name. *)
Definition _require_env (getenv : str -> option str) (name : str) : Res str :=
  match getenv name with
  | None => Exc (not_set name)
  | Some value =>
      if negb (truthy value) || negb (truthy (strip value))
      then Exc (not_set name)
      else Val (strip value)
  end.

(** The two module-level assignments, in their order:
    [TELEGRAM_BOT_TOKEN = _require_env("TELEGRAM_BOT_TOKEN")] and
    [DEEPSEEK_API_KEY = _require_env("DEEPSEEK_API_KEY")]. *)
Definition required_settings (getenv : str -> option str) : Res (str * str) :=
  match _require_env getenv (of_ascii "TELEGRAM_BOT_TOKEN") with
  | Exc e => Exc e
  | Val token =>
      match _require_env getenv (of_ascii "DEEPSEEK_API_KEY") with
      | Exc e => Exc e
      | Val key => Val (token, key)
      end
  end.

End RequireEnv.

End environment.

(** A text with no whitespace at either end. *)
Definition trimmed (v : str) : Prop :=
  strip v = v
  /\ forall c, head v = Some c \/ last v = Some c -> isspace c = false.

(** ** bot.py: the callbacks that only move between menus *)

Module navigation.
Import config bot.
Local Open Scope handler_scope.

(** [(query.message.chat_id if query and query.message else None)
     or (update.effective_chat.id if update.effective_chat else None)]. *)
Definition callback_chat_id (update : Update) : option Z :=
  match match callback_query update with
        | Some query => cq_message_chat_id query
        | None => None
        end with
  | Some c => if c =? 0 then effective_chat update else Some c
  | None => effective_chat update
  end.

Definition back_callback (update : Update) : M ConversationState :=
  match callback_query update with
  | Some _ => telegram answer_query
  | None => ret tt
  end ;;
  match callback_chat_id update with
  | Some chat_id =>
      if chat_id =? 0 then ret tt
      else telegram (send_message chat_id MSG_CHOOSE_CATEGORY (Some category_keyboard))
  | None => ret tt
  end ;;
  ret MAIN_MENU.

Definition approve_callback (update : Update) : M ConversationState :=
  match callback_query update with
  | Some _ => telegram answer_query
  | None => ret tt
  end ;;
  match callback_chat_id update with
  | Some chat_id =>
      if chat_id =? 0 then ret tt
      else telegram (send_message chat_id MSG_CHOOSE_CATEGORY (Some category_keyboard))
  | None => ret tt
  end ;;
  ret MAIN_MENU.

Definition refine_callback (update : Update) : M ConversationState :=
  match callback_query update with
  | Some _ => telegram answer_query
  | None => ret tt
  end ;;
  match callback_chat_id update with
  | Some chat_id =>
      if chat_id =? 0 then ret tt
      else telegram (send_message chat_id MSG_SEND_REFINEMENT (Some awaiting_keyboard))
  | None => ret tt
  end ;;
  ret AWAITING_REFINEMENT.

End navigation.

(** What a menu callback does: it answers the query when there is one, then
    writes [text] with [keyboard] to the chat when it knows one, and touches
    nothing else. *)
Definition menu_calls (update : bot.Update) (text : bot.Text)
           (keyboard : bot.Keyboard) : list bot.BotCall :=
  match bot.callback_query update with
  | Some _ => [bot.answer_query]
  | None => []
  end
  ++ match navigation.callback_chat_id update with
     | Some c => if c =? 0 then [] else [bot.send_message c text (Some keyboard)]
     | None => []
     end.

Definition navigation_outcome (text : bot.Text) (keyboard : bot.Keyboard)
           (state : config.ConversationState) (update : bot.Update)
           (env : bot.Env) (w : bot.World)
           (r : Res config.ConversationState) (w' : bot.World) : Prop :=
  bot.user_data w' = bot.user_data w
  /\ bot.rate_limiter w' = bot.rate_limiter w
  /\ bot.completion_log w' = bot.completion_log w
  /\ bot.sleep_log w' = bot.sleep_log w
  /\ (exists made, bot.telegram_log w' = bot.telegram_log w ++ made
                   /\ made `prefix_of` menu_calls update text keyboard)
  /\ (forall s, r = Val s ->
                s = state
                /\ bot.telegram_log w'
                   = bot.telegram_log w ++ menu_calls update text keyboard)
  /\ (delivers env -> r = Val state).

(** ** bot.py: cmd_history

    The command reads [user_data["history"]] and makes one [reply_text]
    call; what follows is the text it passes.  Every stored item carries
    both keys, so the defaults of [item.get] never apply. *)

Module listing.
Import config bot.

(** [str(n)] for a natural number: its decimal digits. *)
Definition int_str (n : nat) : str :=
  of_ascii (NilZero.string_of_uint (Nat.to_uint n)).

Definition EM_DASH : str := [8212%N].

(** [config.MSG_HISTORY_HEADER.format(count)]. *)
Definition MSG_HISTORY_HEADER (count : nat) : str :=
  [128220%N] ++ of_ascii " *Last " ++ int_str count ++ of_ascii " prompts:*"
  ++ [10%N; 10%N].

(** The line the loop body appends for item number [i]. *)
Definition history_line (i : nat) (item : HistoryEntry) : str :=
  let cat := he_category item in
  let preview := slice_to (he_text item) 150 in
  if 150 <=? len preview
  then int_str i ++ of_ascii ". *" ++ cat ++ of_ascii "* " ++ EM_DASH
       ++ of_ascii " " ++ preview ++ ELLIPSIS
  else int_str i ++ of_ascii ". *" ++ cat ++ of_ascii "* " ++ EM_DASH
       ++ of_ascii " " ++ preview.

(** [enumerate(xs, start)]. *)
Fixpoint enumerate {A : Type} (xs : list A) (start : nat) : list (nat * A) :=
  match xs with
  | [] => []
  | x :: rest => (start, x) :: enumerate rest (S start)
  end.

(** [lines], after the loop over [enumerate(reversed(history), 1)]. *)
Definition history_lines (history : list HistoryEntry) : list str :=
  map (fun p => history_line (fst p) (snd p)) (enumerate (rev history) 1).

(** The text of the reply: the constant for an empty history, or the header
    followed by the lines. *)
Inductive HistoryText : Type :=
| MSG_HISTORY_EMPTY
| history_text (text : str).

Definition cmd_history (ud : UserData) : HistoryText :=
  let history := ud_history ud in
  if negb (truthy history) then MSG_HISTORY_EMPTY
  else history_text (MSG_HISTORY_HEADER (length history)
                     ++ join [10%N] (history_lines history)).

End listing.

(** A history item as the generation handler writes them: the value of a
    category and a preview of at most 200 characters and an ellipsis. *)
Definition entry_fits (e : bot.HistoryEntry) : Prop :=
  (exists c, bot.he_category e = config.Category_value c)
  /\ len (bot.he_text e) <= 201.

Definition history_fits (ud : bot.UserData) : Prop :=
  len (bot.ud_history ud) <= config.HISTORY_MAX_ITEMS
  /\ Forall entry_fits (bot.ud_history ud).

(** The reply of [cmd_history] fits one message of the chat platform. *)
Definition listing_fits (ud : bot.UserData) : Prop :=
  match listing.cmd_history ud with
  | listing.MSG_HISTORY_EMPTY => bot.ud_history ud = []
  | listing.history_text text => 0 < len text <= config.MAX_MESSAGE_LENGTH
  end.

(** ** More sample inputs *)

Module scenes.
Import config bot sample.

(** The user taps the button that carries [data]. *)
Definition tap (data : string) : Update :=
  {| effective_user := Some 7; effective_chat := Some 7; message_text := None;
     callback_query := Some {| cq_data := Some (of_ascii data);
                               cq_message_chat_id := Some 7 |} |}.

(** The limiter after user 7 was let through five times within five seconds. *)
Definition busy : RateLimiter.t :=
  snd (RateLimiter.run [(0%Q, 7); (1%Q, 7); (2%Q, 7); (3%Q, 7); (4%Q, 7)]
                       (RateLimiter.__init__ RATE_LIMIT_REQUESTS_PER_MINUTE)).

Definition code_chosen_busy : World := with_rate_limiter busy code_chosen.

(** A process environment with both settings, the token padded with spaces. *)
Definition getenv_both (name : str) : option str :=
  if str_eqb name (of_ascii "TELEGRAM_BOT_TOKEN") then Some (of_ascii " 123:abc ")
  else if str_eqb name (of_ascii "DEEPSEEK_API_KEY") then Some (of_ascii "sk-1")
  else None.

(** The chat platform is down but for the status notice: every other call
    raises. *)
Definition network_error : exn :=
  OtherError "NetworkError" (of_ascii "Bad Gateway").

Definition only_the_notice : nat -> BotCall -> option exn :=
  fun _ c =>
    match c with
    | reply_text MSG_SENDING _ _ => None
    | _ => Some network_error
    end.

(** The completion client always times out and the platform is down but
    for the status notice. *)
Definition env_cut_off : Env :=
  {| env_now := 0%Q;
     env_completion := fun _ => Exc timeout_error;
     env_telegram := only_the_notice |}.


End scenes.

(* ===================================================================== *)
(** * Properties *)
(* ===================================================================== *)

(** ** The primitives on sample values *)

Example split_sample :
  split (of_ascii "  a REST  API ") = [of_ascii "a"; of_ascii "REST"; of_ascii "API"].
Proof. reflexivity. Qed.

Example strip_sample : strip ([10%N; 32%N] ++ of_ascii "hi there" ++ [9%N]) = of_ascii "hi there".
Proof. reflexivity. Qed.

Example join_sample :
  join (of_ascii " ") [of_ascii "a"; of_ascii "b"; of_ascii "c"] = of_ascii "a b c".
Proof. reflexivity. Qed.

Example slice_from_sample : slice_from [1; 2; 3; 4; 5; 6; 7] (-5) = [3; 4; 5; 6; 7].
Proof. reflexivity. Qed.

Example slice_from_short : slice_from [1; 2; 3] (-5) = [1; 2; 3].
Proof. reflexivity. Qed.

Example range_sample : range 0 10 4 = Val [0; 4; 8].
Proof. reflexivity. Qed.

Example hard_slices_sample :
  hard_slices (of_ascii "abcdefgh") 3
  = Val [of_ascii "abc"; of_ascii "def"; of_ascii "gh"].
Proof. reflexivity. Qed.

Example history_entry_cut :
  bot.he_text (bot.history_entry (of_ascii "code") (repeat 97%N 201))
  = repeat 97%N 200 ++ [8230%N].
Proof. reflexivity. Qed.

Example history_entry_whole :
  bot.he_text (bot.history_entry (of_ascii "code") (repeat 97%N 200))
  = repeat 97%N 200.
Proof. reflexivity. Qed.

Example split_demo :
  split_into_chunks (of_ascii "aaaa b  cc d") 3
  = Val [of_ascii "aaa"; of_ascii "a"; of_ascii "b"; of_ascii "cc"; of_ascii "d"].
Proof. reflexivity. Qed.

(** ** Sequences, slices and ranges *)

Section SequenceFacts.
Context {A : Type}.
Implicit Types s : list A.

Lemma len_nonneg s : 0 <= len s.
Proof. unfold len. lia. Qed.

Lemma len_app s1 s2 : len (s1 ++ s2) = len s1 + len s2.
Proof. unfold len. rewrite length_app. lia. Qed.

Lemma len_nil_iff s : len s = 0 <-> s = [].
Proof. unfold len. destruct s; simpl; split; intros; try lia; congruence. Qed.

Lemma truthy_false_iff s : truthy s = false <-> s = [].
Proof. destruct s; simpl; split; congruence. Qed.

Lemma truthy_true_iff s : truthy s = true <-> s <> [].
Proof. destruct s; simpl; split; congruence. Qed.

(** A slice with bounds [0 <= i <= j] is a [take] of a [drop]. *)
Lemma slice_take_drop s i j :
  0 <= i -> i <= j ->
  slice s i j = take (Z.to_nat (j - i)) (drop (Z.to_nat i) s).
Proof.
  intros Hi Hij. unfold slice, clamp_index.
  destruct (i <? 0) eqn:Ei; [ apply Z.ltb_lt in Ei; lia | ].
  destruct (j <? 0) eqn:Ej; [ apply Z.ltb_lt in Ej; lia | ].
  destruct (Z_le_gt_dec (len s) i) as [Hge | Hlt].
  - rewrite !drop_ge by (unfold len in *; lia). now rewrite !take_nil.
  - replace (Z.max 0 (Z.min (len s) i)) with i by lia.
    destruct (Z_le_gt_dec j (len s)) as [Hj | Hj].
    + now replace (Z.max 0 (Z.min (len s) j)) with j by lia.
    + replace (Z.max 0 (Z.min (len s) j)) with (len s) by lia.
      rewrite !take_ge; [ reflexivity | | ];
        rewrite length_drop; unfold len in *; lia.
Qed.

(** Consecutive windows of width [w] put back together. *)
Lemma concat_windows s (w n : nat) :
  concat (map (fun k : nat => take w (drop (k * w) s)) (seq 0 n)) = take (n * w) s.
Proof.
  induction n as [| n IH].
  - simpl. now rewrite take_0.
  - rewrite seq_S, map_app, concat_app, IH. simpl.
    rewrite app_nil_r, take_take_drop. f_equal. lia.
Qed.

(** [s[-n:]] for a positive [n] keeps the last [n] items. *)
Lemma slice_from_neg s (n : Z) :
  0 < n ->
  slice_from s (- n) = drop (length s - Z.to_nat n) s.
Proof.
  intros Hn. unfold slice_from, clamp_index.
  destruct (- n <? 0) eqn:E; [ | apply Z.ltb_ge in E; lia ].
  f_equal. unfold len. lia.
Qed.

End SequenceFacts.

Lemma range_positive_step (stop step : Z) :
  0 < step ->
  range 0 stop step
  = Val (map (fun k : nat => Z.of_nat k * step)
             (seq 0 (Z.to_nat (if 0 <? stop then (stop - 1) / step + 1 else 0)))).
Proof.
  intros Hs. unfold range, range_len.
  destruct (step =? 0) eqn:E0; [ apply Z.eqb_eq in E0; lia | ].
  destruct (0 <? step) eqn:E1; [ | apply Z.ltb_ge in E1; lia ].
  rewrite Z.sub_0_r. reflexivity.
Qed.

Lemma ceil_div_range n d :
  0 < d -> 0 <= n ->
  (if 0 <? n then (n - 1) / d + 1 else 0) = ceil_div n d.
Proof.
  intros Hd Hn. unfold ceil_div.
  destruct (0 <? n) eqn:E.
  - replace (n + d - 1) with ((n - 1) + 1 * d) by lia.
    rewrite Z.div_add by lia. reflexivity.
  - apply Z.ltb_ge in E. assert (n = 0) by lia. subst.
    symmetry. apply Z.div_small. lia.
Qed.

Lemma ceil_div_covers n d :
  0 < d -> 0 <= n -> n <= ceil_div n d * d.
Proof.
  intros Hd Hn. unfold ceil_div.
  pose proof (Z.div_mod (n + d - 1) d ltac:(lia)) as E.
  pose proof (Z.mod_pos_bound (n + d - 1) d Hd) as B.
  nia.
Qed.

(** ** The pieces of an over-long token *)

Section HardSlices.
Variable max_length : Z.
Hypothesis max_length_pos : 0 < max_length.

Lemma hard_slices_windows (part : str) :
  hard_slices part max_length
  = Val (map (fun k : nat =>
                take (Z.to_nat max_length) (drop (k * Z.to_nat max_length) part))
             (seq 0 (Z.to_nat (ceil_div (len part) max_length)))).
Proof.
  unfold hard_slices.
  rewrite range_positive_step by assumption.
  rewrite ceil_div_range by (auto using len_nonneg).
  f_equal. rewrite map_map. apply map_ext. intros k.
  rewrite slice_take_drop by nia.
  f_equal; [ f_equal; lia | f_equal; nia ].
Qed.

Lemma hard_slices_spec (part : str) :
  exists pieces,
    hard_slices part max_length = Val pieces
    /\ len pieces = ceil_div (len part) max_length
    /\ Forall (fun p => len p <= max_length) pieces
    /\ concat pieces = part.
Proof.
  eexists. split; [ apply hard_slices_windows | ].
  pose proof (len_nonneg part) as Hp.
  assert (0 <= ceil_div (len part) max_length) as Hc
      by (unfold ceil_div; apply Z.div_pos; lia).
  split; [ | split ].
  - unfold len at 1. rewrite length_map, length_seq. lia.
  - apply Forall_forall. intros p Hin. apply list_elem_of_In, in_map_iff in Hin.
    destruct Hin as [k [<- _]]. unfold len. rewrite length_take. lia.
  - rewrite concat_windows. apply take_ge.
    pose proof (ceil_div_covers (len part) max_length max_length_pos Hp).
    unfold len in *. nia.
Qed.

End HardSlices.

(** ** The packing loop *)

Lemma join_snoc (sep : str) (l : list str) (x : str) :
  join sep (l ++ [x]) = if truthy l then join sep l ++ sep ++ x else x.
Proof.
  induction l as [| y l IH]; [ reflexivity | ].
  destruct l as [| z l]; [ reflexivity | ].
  change (join sep ((y :: z :: l) ++ [x])) with (y ++ sep ++ join sep ((z :: l) ++ [x])).
  rewrite IH. simpl truthy. cbv iota.
  change (join sep (y :: z :: l)) with (y ++ sep ++ join sep (z :: l)).
  now rewrite <- !app_assoc.
Qed.

Lemma len_join_snoc (l : list str) (x : str) :
  len (join (of_ascii " ") (l ++ [x]))
  = len (join (of_ascii " ") l) + len x + (if truthy l then 1 else 0).
Proof.
  rewrite join_snoc. destruct (truthy l) eqn:E.
  - rewrite !len_app. change (len (of_ascii " ")) with 1. lia.
  - apply truthy_false_iff in E. subst. simpl. unfold len at 2. simpl. lia.
Qed.

Lemma join_app (sep : str) (a b : list str) :
  a <> [] -> b <> [] ->
  join sep (a ++ b) = join sep a ++ sep ++ join sep b.
Proof.
  intros Ha Hb. induction a as [| x a IH]; [ congruence | ].
  destruct a as [| y a].
  - destruct b; [ congruence | reflexivity ].
  - change (join sep ((x :: y :: a) ++ b))
      with (x ++ sep ++ join sep ((y :: a) ++ b)).
    rewrite IH by discriminate.
    change (join sep (x :: y :: a)) with (x ++ sep ++ join sep (y :: a)).
    now rewrite <- !app_assoc.
Qed.

(** Joining joined lines is joining all their tokens. *)
Lemma join_join (sep : str) (lines : list (list str)) :
  Forall (fun l => l <> []) lines ->
  join sep (map (join sep) lines) = join sep (concat lines).
Proof.
  induction 1 as [| l rest Hl Hrest IH]; [ reflexivity | ].
  destruct rest as [| l2 rest].
  - simpl. now rewrite app_nil_r.
  - change (join sep (map (join sep) (l :: l2 :: rest)))
      with (join sep l ++ sep ++ join sep (map (join sep) (l2 :: rest))).
    rewrite IH.
    change (concat (l :: l2 :: rest)) with (l ++ concat (l2 :: rest)).
    rewrite (join_app sep l (concat (l2 :: rest))); [ reflexivity | assumption | ].
    apply Forall_inv in Hrest. destruct l2; [ congruence | discriminate ].
Qed.

Section Pack.
Variable max_length : Z.
Hypothesis max_length_pos : 0 < max_length.

Lemma pack_inv_line current current_len :
  pack_inv max_length current current_len -> truthy current = true ->
  seg_ok max_length (Line current).
Proof.
  intros (_ & Hfit & Hall) Ht. apply truthy_true_iff in Ht.
  simpl. auto.
Qed.

Lemma pack_segments (parts : list str) :
  forall chunks current current_len,
    pack_inv max_length current current_len ->
    exists segs,
      pack max_length parts chunks current current_len
      = Val (chunks ++ flat_map (seg_chunks max_length) segs)
      /\ flat_map seg_tokens segs = current ++ parts
      /\ Forall (seg_ok max_length) segs.
Proof.
  induction parts as [| part rest IH]; intros chunks current current_len Hinv.
  - simpl pack. destruct (truthy current) eqn:Ht.
    + exists [Line current]. simpl. rewrite !app_nil_r.
      split; [ reflexivity | split; [ reflexivity | ] ].
      constructor; [ eapply pack_inv_line; eassumption | constructor ].
    + apply truthy_false_iff in Ht. subst. exists []. simpl.
      rewrite app_nil_r. auto.
  - simpl pack.
    destruct (current_len + (len part + (if truthy current then 1 else 0))
              <=? max_length) eqn:Efit.
    + (* the token joins the current line *)
      apply Z.leb_le in Efit.
      destruct Hinv as (Hcl & Hfit & Hall).
      pose proof (len_nonneg part) as Hp.
      pose proof (len_nonneg (join (of_ascii " ") current)) as Hj.
      destruct (IH chunks (current ++ [part])
                   (current_len + (len part + (if truthy current then 1 else 0))))
        as (segs & Hrun & Htok & Hok).
      { unfold pack_inv in *. rewrite len_join_snoc.
        repeat split; try lia.
        apply Forall_app; split; [ assumption | ].
        constructor; [ | constructor ].
        destruct (truthy current); lia. }
      exists segs. rewrite Hrun, Htok, <- app_assoc. auto.
    + (* the line is flushed first *)
      apply Z.leb_gt in Efit.
      set (chunks' := if truthy current
                      then chunks ++ [join (of_ascii " ") current] else chunks).
      assert (exists pre,
                 chunks' = chunks ++ flat_map (seg_chunks max_length) pre
                 /\ flat_map seg_tokens pre = current
                 /\ Forall (seg_ok max_length) pre) as (pre & Hc & Hpt & Hpo).
      { unfold chunks'. destruct (truthy current) eqn:Ht.
        - exists [Line current]. simpl. rewrite app_nil_r.
          split; [ reflexivity | split; [ reflexivity | ] ].
          constructor; [ eapply pack_inv_line; eassumption | constructor ].
        - apply truthy_false_iff in Ht. subst. exists []. simpl.
          rewrite app_nil_r. auto. }
      destruct (max_length <? len part) eqn:Elong.
      * (* an over-long token is cut into pieces *)
        apply Z.ltb_lt in Elong.
        destruct (hard_slices_spec max_length max_length_pos part)
          as (pieces & Hhs & _).
        rewrite Hhs.
        destruct (IH (chunks' ++ pieces) [] 0) as (segs & Hrun & Htok & Hok).
        { unfold pack_inv. simpl. unfold len. simpl. repeat split; try lia.
          constructor. }
        exists (pre ++ Sliced part :: segs).
        rewrite Hrun, Hc, !flat_map_app. simpl. rewrite Hhs, Htok, Hpt.
        rewrite <- !app_assoc. repeat split; auto.
        apply Forall_app; split; [ assumption | ].
        constructor; [ exact Elong | assumption ].
      * (* the token opens a new line *)
        apply Z.ltb_ge in Elong.
        destruct (IH chunks' [part] (len part + 1)) as (segs & Hrun & Htok & Hok).
        { unfold pack_inv. simpl. repeat split; try lia.
          constructor; [ assumption | constructor ]. }
        exists (pre ++ segs).
        rewrite Hrun, Hc, !flat_map_app, Htok, Hpt, <- !app_assoc.
        repeat split; auto. apply Forall_app; auto.
Qed.

Lemma seg_chunks_bounded (g : segment) :
  seg_ok max_length g ->
  Forall (fun c => len c <= max_length) (seg_chunks max_length g).
Proof.
  destruct g as [ts | t]; simpl.
  - intros (_ & _ & Hfit). constructor; [ assumption | constructor ].
  - intros _.
    destruct (hard_slices_spec max_length max_length_pos t)
      as (pieces & Hhs & _ & Hb & _).
    now rewrite Hhs.
Qed.

Lemma segs_chunks_bounded (segs : list segment) :
  Forall (seg_ok max_length) segs ->
  Forall (fun c => len c <= max_length) (flat_map (seg_chunks max_length) segs).
Proof.
  induction 1 as [| g segs Hg _ IH]; simpl.
  - constructor.
  - apply Forall_app; split; [ now apply seg_chunks_bounded | exact IH ].
Qed.

(** With a positive limit the function returns, and its chunks are the
    chunks of a segmentation of the token sequence. *)
Lemma split_into_chunks_long (text : str) :
  max_length < len text ->
  exists segs,
    split_into_chunks text max_length = Val (flat_map (seg_chunks max_length) segs)
    /\ flat_map seg_tokens segs = split text
    /\ Forall (seg_ok max_length) segs.
Proof.
  intros Hlong. unfold split_into_chunks.
  destruct (truthy text) eqn:Ht.
  2:{ apply truthy_false_iff in Ht. subst. unfold len in Hlong. simpl in Hlong. lia. }
  simpl negb. cbv iota.
  destruct (len text <=? max_length) eqn:E; [ apply Z.leb_le in E; lia | ].
  destruct (pack_segments (split text) [] [] 0) as (segs & Hrun & Htok & Hok).
  { unfold pack_inv. simpl. unfold len. simpl. repeat split; try lia. constructor. }
  exists segs. auto.
Qed.

Lemma split_into_chunks_short (text : str) :
  text <> [] -> len text <= max_length ->
  split_into_chunks text max_length = Val [text].
Proof.
  intros Hne Hshort. unfold split_into_chunks.
  apply truthy_true_iff in Hne. rewrite Hne. simpl.
  apply Z.leb_le in Hshort. now rewrite Hshort.
Qed.

Lemma split_into_chunks_bounded (text : str) :
  exists chunks,
    split_into_chunks text max_length = Val chunks
    /\ Forall (fun c => len c <= max_length) chunks.
Proof.
  destruct (Z_le_gt_dec (len text) max_length) as [Hshort | Hlong].
  - destruct text as [| c text].
    + exists []. split; [ reflexivity | constructor ].
    + exists [c :: text]. split.
      * now apply split_into_chunks_short.
      * constructor; [ assumption | constructor ].
  - destruct (split_into_chunks_long text ltac:(lia)) as (segs & Hrun & _ & Hok).
    eexists. split; [ exact Hrun | now apply segs_chunks_bounded ].
Qed.

End Pack.

Lemma split_into_chunks_empty (max_length : Z) :
  split_into_chunks [] max_length = Val [].
Proof. reflexivity. Qed.

(** ** str.split *)

Lemma no_space_app (a b : str) : no_space (a ++ b) <-> no_space a /\ no_space b.
Proof. unfold no_space. rewrite forallb_app, andb_true_iff. reflexivity. Qed.

Lemma no_space_cons (c : char) (t : str) :
  no_space (c :: t) <-> isspace c = false /\ no_space t.
Proof.
  unfold no_space. simpl. rewrite andb_true_iff, negb_true_iff. reflexivity.
Qed.

Lemma no_space_rev (t : str) : no_space (rev t) <-> no_space t.
Proof.
  induction t as [| c t IH]; [ reflexivity | ].
  simpl rev. rewrite no_space_app, IH, !no_space_cons. unfold no_space at 2. simpl.
  tauto.
Qed.

Lemma split_from_all_space (s : str) : all_space s -> split_from [] s = [].
Proof.
  unfold all_space. induction s as [| c s IH]; simpl; [ reflexivity | ].
  rewrite andb_true_iff. intros [Hc Hs]. rewrite Hc. auto.
Qed.

(** Reading a run of non-whitespace moves it onto the accumulator. *)
Lemma split_from_run (t : str) :
  forall cur s, no_space t -> split_from cur (t ++ s) = split_from (rev t ++ cur) s.
Proof.
  induction t as [| c t IH]; intros cur s Ht; [ reflexivity | ].
  apply no_space_cons in Ht. destruct Ht as [Hc Ht].
  simpl. rewrite Hc, IH by assumption. now rewrite <- app_assoc.
Qed.

Lemma split_single_token (t : str) : is_token t -> split t = [t].
Proof.
  intros [Hne Hns]. unfold split.
  rewrite <- (app_nil_r t) at 1. rewrite split_from_run by assumption.
  simpl. rewrite app_nil_r.
  assert (truthy (rev t) = true) as ->.
  { apply truthy_true_iff. intros E. apply Hne.
    rewrite <- (rev_involutive t), E. reflexivity. }
  now rewrite rev_involutive.
Qed.

Lemma split_from_tokens (s : str) :
  forall cur, no_space cur -> Forall is_token (split_from cur s).
Proof.
  induction s as [| c s IH]; intros cur Hcur; simpl.
  - destruct (truthy cur) eqn:Ht; constructor; [ | constructor ].
    split.
    + apply truthy_true_iff in Ht. intros E. apply Ht.
      rewrite <- (rev_involutive cur), E. reflexivity.
    + now apply no_space_rev.
  - destruct (isspace c) eqn:Hc.
    + destruct (truthy cur) eqn:Ht.
      * constructor; [ | apply IH; reflexivity ].
        split.
        -- apply truthy_true_iff in Ht. intros E. apply Ht.
           rewrite <- (rev_involutive cur), E. reflexivity.
        -- now apply no_space_rev.
      * apply IH. reflexivity.
    + apply IH. apply no_space_cons. auto.
Qed.

Lemma split_tokens (s : str) : Forall is_token (split s).
Proof. apply split_from_tokens. reflexivity. Qed.

(** Joining tokens with one space and splitting again gives the tokens back. *)
Lemma split_join (ts : list str) :
  Forall is_token ts -> split (join (of_ascii " ") ts) = ts.
Proof.
  induction 1 as [| t ts Ht Hts IH]; [ reflexivity | ].
  destruct ts as [| u ts].
  - simpl. now apply split_single_token.
  - change (join (of_ascii " ") (t :: u :: ts))
      with (t ++ of_ascii " " ++ join (of_ascii " ") (u :: ts)).
    destruct Ht as [Hne Hns]. unfold split in *.
    rewrite split_from_run by assumption. rewrite app_nil_r.
    change (of_ascii " " ++ join (of_ascii " ") (u :: ts))
      with (32%N :: join (of_ascii " ") (u :: ts)).
    simpl split_from at 1.
    assert (truthy (rev t) = true) as ->.
    { apply truthy_true_iff. intros E. apply Hne.
      rewrite <- (rev_involutive t), E. reflexivity. }
    rewrite rev_involutive. f_equal. exact IH.
Qed.

(** Splitting a whitespace-free string and concatenating changes nothing. *)
Lemma concat_split_no_space (p : str) : no_space p -> concat (split p) = p.
Proof.
  intros Hp. destruct p as [| c p]; [ reflexivity | ].
  rewrite split_single_token; [ simpl; now rewrite app_nil_r | ].
  split; [ discriminate | assumption ].
Qed.

Lemma concat_split_pieces (pieces : list str) :
  no_space (concat pieces) ->
  concat (flat_map split pieces) = concat pieces.
Proof.
  induction pieces as [| p ps IH]; [ reflexivity | ].
  simpl. rewrite no_space_app. intros [Hp Hps].
  rewrite concat_app, IH, concat_split_no_space by assumption. reflexivity.
Qed.

(** ** Chunks and tokens *)

Section ChunksAndTokens.
Variable max_length : Z.
Hypothesis max_length_pos : 0 < max_length.

Lemma seg_chunks_resplit (g : segment) :
  seg_ok max_length g -> Forall is_token (seg_tokens g) ->
  concat (flat_map split (seg_chunks max_length g)) = concat (seg_tokens g)
  /\ (Forall (fun t => len t <= max_length) (seg_tokens g) ->
      flat_map split (seg_chunks max_length g) = seg_tokens g).
Proof.
  destruct g as [ts | t]; simpl; intros Hok Htok.
  - rewrite app_nil_r, split_join by assumption. auto.
  - destruct (hard_slices_spec max_length max_length_pos t)
      as (pieces & Hhs & _ & _ & Hcat).
    rewrite Hhs. apply Forall_inv in Htok. destruct Htok as [_ Hns].
    split.
    + rewrite concat_split_pieces by (now rewrite Hcat).
      rewrite Hcat. simpl. now rewrite app_nil_r.
    + intros Hshort. apply Forall_inv in Hshort. lia.
Qed.

Lemma segs_chunks_resplit (segs : list segment) :
  Forall (seg_ok max_length) segs ->
  Forall is_token (flat_map seg_tokens segs) ->
  concat (flat_map split (flat_map (seg_chunks max_length) segs))
  = concat (flat_map seg_tokens segs)
  /\ (Forall (fun t => len t <= max_length) (flat_map seg_tokens segs) ->
      flat_map split (flat_map (seg_chunks max_length) segs)
      = flat_map seg_tokens segs).
Proof.
  induction 1 as [| g segs Hg _ IH]; simpl; [ auto | ].
  rewrite Forall_app. intros [Hgt Hrest].
  destruct (IH Hrest) as [IHc IHt].
  destruct (seg_chunks_resplit g Hg Hgt) as [Hc Ht].
  rewrite flat_map_app, !concat_app, Hc, IHc. split; [ reflexivity | ].
  rewrite Forall_app. intros [Hs1 Hs2]. now rewrite Ht, IHt.
Qed.

Lemma split_into_chunks_resplit (text : str) :
  exists chunks,
    split_into_chunks text max_length = Val chunks
    /\ concat (flat_map split chunks) = concat (split text)
    /\ (Forall (fun t => len t <= max_length) (split text) ->
        flat_map split chunks = split text).
Proof.
  destruct (Z_le_gt_dec (len text) max_length) as [Hshort | Hlong].
  - destruct text as [| c text].
    + exists []. auto.
    + exists [c :: text]. split; [ now apply split_into_chunks_short | ].
      simpl flat_map. rewrite app_nil_r. auto.
  - destruct (split_into_chunks_long max_length max_length_pos text ltac:(lia))
      as (segs & Hrun & Htok & Hok).
    eexists. split; [ exact Hrun | ].
    rewrite <- Htok. apply segs_chunks_resplit; [ assumption | ].
    rewrite Htok. apply split_tokens.
Qed.

Lemma seg_text_join (g : segment) :
  seg_text max_length g = join (of_ascii " ") (seg_tokens g).
Proof.
  destruct g as [ts | t]; unfold seg_text; simpl.
  - apply app_nil_r.
  - destruct (hard_slices_spec max_length max_length_pos t)
      as (pieces & Hhs & _ & _ & Hcat).
    now rewrite Hhs.
Qed.

Lemma seg_ok_tokens (g : segment) : seg_ok max_length g -> seg_tokens g <> [].
Proof. destruct g; simpl; [ tauto | discriminate ]. Qed.

(** Putting the segments back together with single spaces and splitting
    gives the tokens of the text. *)
Lemma segments_rejoin (segs : list segment) (text : str) :
  Forall (seg_ok max_length) segs ->
  flat_map seg_tokens segs = split text ->
  split (join (of_ascii " ") (map (seg_text max_length) segs)) = split text.
Proof.
  intros Hok Htok.
  rewrite (map_ext _ _ seg_text_join), <- map_map, join_join.
  - rewrite <- flat_map_concat_map, Htok. apply split_join, split_tokens.
  - clear Htok. induction Hok as [| g segs Hg _ IH]; simpl; constructor.
    + now apply seg_ok_tokens.
    + exact IH.
Qed.

(** A text that is one over-long token comes back as its hard slices. *)
Lemma split_into_chunks_one_token (text : str) :
  is_token text -> max_length < len text ->
  split_into_chunks text max_length = hard_slices text max_length.
Proof.
  intros Htok Hlong. unfold split_into_chunks.
  destruct Htok as [Hne Hns].
  pose proof Hne as Ht. apply truthy_true_iff in Ht. rewrite Ht. simpl negb.
  cbv iota.
  destruct (len text <=? max_length) eqn:E; [ apply Z.leb_le in E; lia | ].
  rewrite split_single_token by (split; assumption).
  simpl pack.
  destruct (0 + (len text + 0) <=? max_length) eqn:E1;
    [ apply Z.leb_le in E1; lia | ].
  destruct (max_length <? len text) eqn:E2; [ | apply Z.ltb_ge in E2; lia ].
  destruct (hard_slices text max_length); reflexivity.
Qed.

End ChunksAndTokens.

(** ** Claims about the chunker *)

(** C7: for every text T and limit L > 0, [split_into_chunks] returns and
    every chunk has length at most L; a T with length(T) <= L comes back as
    the single chunk [T], the empty text apart, which the source tests for
    first and which gives the empty sequence for every L. *)
Theorem split_into_chunks_contract (text : str) (max_length : Z) :
  0 < max_length ->
  (exists chunks,
      split_into_chunks text max_length = Val chunks
      /\ Forall (fun c => len c <= max_length) chunks)
  /\ (text <> [] -> len text <= max_length ->
      split_into_chunks text max_length = Val [text])
  /\ (forall any_length, split_into_chunks [] any_length = Val []).
Proof.
  intros Hpos. split; [ | split ].
  - now apply split_into_chunks_bounded.
  - now apply split_into_chunks_short.
  - intros L. apply split_into_chunks_empty.
Qed.

Lemma split_into_chunks_contract_witness :
  0 < 3
  /\ (exists chunks,
         split_into_chunks (of_ascii "aaaa b  cc d") 3 = Val chunks
         /\ Forall (fun c => len c <= 3) chunks).
Proof.
  split; [ lia | ].
  apply (split_into_chunks_contract (of_ascii "aaaa b  cc d") 3). lia.
Defined.

(** C8: for every text T and limit L > 0 the chunks reproduce the token
    sequence of T.  Splitting the chunks again gives back the characters of
    the tokens in order, and the very token sequence when no token is longer
    than L; a text longer than L is covered by segments, each a line of tokens
    joined by single spaces or the hard slices of one over-long token, and the
    segments put back together with single spaces split into the tokens of T;
    and an over-long token is cut into ceil(len/L) pieces of length at most L
    whose concatenation is the token. *)
Theorem split_into_chunks_tokens (text : str) (max_length : Z) :
  0 < max_length ->
  (exists chunks,
      split_into_chunks text max_length = Val chunks
      /\ concat (flat_map split chunks) = concat (split text)
      /\ (Forall (fun t => len t <= max_length) (split text) ->
          flat_map split chunks = split text))
  /\ (max_length < len text ->
      exists segs,
        split_into_chunks text max_length
        = Val (flat_map (seg_chunks max_length) segs)
        /\ flat_map seg_tokens segs = split text
        /\ Forall (seg_ok max_length) segs
        /\ split (join (of_ascii " ") (map (seg_text max_length) segs))
           = split text)
  /\ (forall token,
        exists pieces,
          hard_slices token max_length = Val pieces
          /\ len pieces = ceil_div (len token) max_length
          /\ Forall (fun p => len p <= max_length) pieces
          /\ concat pieces = token
          /\ (is_token token -> max_length < len token ->
              split_into_chunks token max_length = Val pieces)).
Proof.
  intros Hpos. split; [ | split ].
  - now apply split_into_chunks_resplit.
  - intros Hlong.
    destruct (split_into_chunks_long max_length Hpos text Hlong)
      as (segs & Hrun & Htok & Hok).
    exists segs. repeat split; try assumption.
    now apply segments_rejoin.
  - intros token.
    destruct (hard_slices_spec max_length Hpos token)
      as (pieces & Hhs & Hn & Hb & Hcat).
    exists pieces. repeat split; try assumption.
    intros Htok Hlong. rewrite <- Hhs.
    now apply split_into_chunks_one_token.
Qed.

Lemma split_into_chunks_tokens_witness :
  0 < 3
  /\ (exists pieces,
         hard_slices (of_ascii "abcdefgh") 3 = Val pieces
         /\ len pieces = ceil_div (len (of_ascii "abcdefgh")) 3
         /\ Forall (fun p => len p <= 3) pieces
         /\ concat pieces = of_ascii "abcdefgh"
         /\ (is_token (of_ascii "abcdefgh") -> 3 < len (of_ascii "abcdefgh") ->
             split_into_chunks (of_ascii "abcdefgh") 3 = Val pieces)).
Proof.
  split; [ lia | ].
  apply (split_into_chunks_tokens (of_ascii "abcdefgh") 3). lia.
Defined.

(** C10: a non-empty text made of whitespace only and longer than the limit
    is split into the empty sequence. *)
Theorem split_into_chunks_whitespace_only (text : str) (max_length : Z) :
  text <> [] -> all_space text -> max_length < len text ->
  split_into_chunks text max_length = Val [].
Proof.
  intros Hne Hsp Hlong. unfold split_into_chunks.
  apply truthy_true_iff in Hne. rewrite Hne. simpl negb. cbv iota.
  destruct (len text <=? max_length) eqn:E; [ apply Z.leb_le in E; lia | ].
  unfold split. now rewrite split_from_all_space.
Qed.

Lemma split_into_chunks_whitespace_only_witness :
  split_into_chunks [32%N; 10%N; 9%N] 2 = Val [].
Proof.
  apply split_into_chunks_whitespace_only.
  - discriminate.
  - reflexivity.
  - unfold len. simpl. lia.
Defined.

(** ** The rate limiter *)

Module RateLimiterFacts.
Import RateLimiter.

Lemma Qgtb_true (a b : Q) : Qgtb a b = true <-> (b < a)%Q.
Proof.
  unfold Qgtb. rewrite negb_true_iff, <- not_true_iff_false, Qle_bool_iff.
  split; [ apply Qnot_le_lt | apply Qlt_not_le ].
Qed.

Lemma Qgtb_false (a b : Q) : Qgtb a b = false <-> (a <= b)%Q.
Proof.
  unfold Qgtb. rewrite negb_false_iff. apply Qle_bool_iff.
Qed.

Lemma getitem_insert_eq d k v : getitem (<[k := v]> d) k = v.
Proof. unfold getitem. now rewrite lookup_insert_eq. Qed.

Lemma getitem_insert_ne d k k' v : k <> k' -> getitem (<[k := v]> d) k' = getitem d k'.
Proof. intros H. unfold getitem. now rewrite lookup_insert_ne. Qed.

(** [is_allowed] in terms of the caller's own window. *)
Lemma is_allowed_window now u self :
  fst (is_allowed now u self)
  = fst (window_step (max_per_minute self) now (getitem (_timestamps self) u))
  /\ getitem (_timestamps (snd (is_allowed now u self))) u
     = snd (window_step (max_per_minute self) now (getitem (_timestamps self) u))
  /\ max_per_minute (snd (is_allowed now u self)) = max_per_minute self.
Proof.
  unfold is_allowed, window_step. rewrite getitem_insert_eq.
  destruct (max_per_minute self <=? _); simpl;
    rewrite ?getitem_insert_eq; auto.
Qed.

(** A call for one user leaves every other user's window alone. *)
Lemma is_allowed_other now u v self :
  u <> v ->
  getitem (_timestamps (snd (is_allowed now u self))) v
  = getitem (_timestamps self) v.
Proof.
  intros Hne. unfold is_allowed. rewrite getitem_insert_eq.
  destruct (max_per_minute self <=? _); simpl;
    rewrite ?getitem_insert_ne by assumption; reflexivity.
Qed.

(** The answers to one user are those of that user's window run alone. *)
Lemma run_projects (u : Z) (calls : list (Q * Z)) :
  forall self,
    answers_to u (fst (run calls self))
    = window_run (max_per_minute self) (map fst (for_user u calls))
                 (getitem (_timestamps self) u).
Proof.
  induction calls as [| [now v] rest IH]; intros self; [ reflexivity | ].
  simpl run.
  destruct (is_allowed now v self) as [ok self1] eqn:E1.
  destruct (run rest self1) as [answers self2] eqn:E2.
  pose proof (IH self1) as IH1. rewrite E2 in IH1. simpl in IH1.
  pose proof (is_allowed_window now v self) as (Hr & Hw & Hm).
  rewrite E1 in Hr, Hw, Hm. simpl in Hr, Hw, Hm.
  unfold answers_to, for_user in *. simpl.
  destruct (v =? u) eqn:Eu.
  - apply Z.eqb_eq in Eu. subst v. simpl.
    destruct (window_step _ now _) as [ok' w1] eqn:Ew. simpl in Hr, Hw.
    subst ok'. f_equal. rewrite IH1, Hm, Hw. reflexivity.
  - apply Z.eqb_neq in Eu. rewrite IH1, Hm.
    pose proof (is_allowed_other now v u self Eu) as Ho.
    rewrite E1 in Ho. simpl in Ho. now rewrite Ho.
Qed.

Lemma filter_keep_all (c : Q) (w : list Q) :
  Forall (fun t => (c < t)%Q) w -> List.filter (fun t => Qgtb t c) w = w.
Proof.
  induction 1 as [| t w Ht _ IH]; simpl; [ reflexivity | ].
  apply Qgtb_true in Ht. now rewrite Ht, IH.
Qed.

Lemma filter_drop_all (c : Q) (w : list Q) :
  Forall (fun t => (t <= c)%Q) w -> List.filter (fun t => Qgtb t c) w = [].
Proof.
  induction 1 as [| t w Ht _ IH]; simpl; [ reflexivity | ].
  apply Qgtb_false in Ht. now rewrite Ht, IH.
Qed.

Lemma filter_kept_iff (c x : Q) (w : list Q) :
  In x (List.filter (fun t => Qgtb t c) w) <-> In x w /\ (c < x)%Q.
Proof. rewrite filter_In, Qgtb_true. reflexivity. Qed.

End RateLimiterFacts.

(** ** Claims about the rate limiter *)

Section RateLimiterClaims.
Import RateLimiter RateLimiterFacts.

Lemma window_run_cons limit now rest w :
  window_run limit (now :: rest) w
  = fst (window_step limit now w)
    :: window_run limit rest (snd (window_step limit now w)).
Proof. simpl. now destruct (window_step limit now w). Qed.

Lemma window_step_admits limit now w :
  Forall (fun t => (now - 60 < t)%Q) w -> len w < limit ->
  window_step limit now w = (true, w ++ [now]).
Proof.
  intros Hw Hroom. unfold window_step. rewrite filter_keep_all by assumption.
  apply Z.leb_gt in Hroom. now rewrite Hroom.
Qed.

Lemma window_step_refuses limit now w :
  Forall (fun t => (now - 60 < t)%Q) w -> limit <= len w ->
  window_step limit now w = (false, w).
Proof.
  intros Hw Hfull. unfold window_step. rewrite filter_keep_all by assumption.
  apply Z.leb_le in Hfull. now rewrite Hfull.
Qed.

Lemma window_step_expired limit now w :
  Forall (fun t => (t <= now - 60)%Q) w -> 0 < limit ->
  window_step limit now w = (true, [now]).
Proof.
  intros Hw Hpos. unfold window_step. rewrite filter_drop_all by assumption.
  simpl. destruct (limit <=? len []) eqn:E; [ | reflexivity ].
  apply Z.leb_le in E. unfold len in E. simpl in E. lia.
Qed.

Local Ltac window_admits :=
  rewrite window_run_cons, window_step_admits;
  [ cbn [fst snd app] | repeat constructor; lra | unfold len; simpl; lia ].

Lemma five_then_blocked_then_free (t1 t2 t3 t4 t5 t6 t7 : Q) :
  (t1 <= t2)%Q -> (t2 <= t3)%Q -> (t3 <= t4)%Q -> (t4 <= t5)%Q ->
  (t5 <= t1 + 1)%Q ->
  (t5 <= t6)%Q -> (t6 < t1 + 60)%Q ->
  (t6 + 61 <= t7)%Q ->
  window_run 5 [t1; t2; t3; t4; t5; t6; t7] []
  = [true; true; true; true; true; false; true].
Proof.
  intros H12 H23 H34 H45 H51 H56 H61 H67.
  do 5 window_admits.
  rewrite window_run_cons, window_step_refuses;
    [ cbn [fst snd] | repeat constructor; lra | unfold len; simpl; lia ].
  rewrite window_run_cons, window_step_expired;
    [ reflexivity | repeat constructor; lra | lia ].
Qed.

(** C5, as amended: each [is_allowed] call first purges the caller's
    timestamps that are not newer than now - 60s, keeping exactly those with
    t > now - 60s; if the count kept is at least the limit it answers false
    and records nothing, otherwise it records now and answers true.  With
    limit 5, five calls within one second are all admitted, a sixth within
    the same minute is refused, and a call 61 seconds later is admitted. *)
Theorem is_allowed_sliding_window :
  (forall (now : Q) (u : Z) (self : RateLimiter.t),
      let w := getitem (_timestamps self) u in
      let kept := List.filter (fun t => Qgtb t (now - 60)%Q) w in
      (forall x, In x kept <-> In x w /\ (now - 60 < x)%Q)
      /\ (max_per_minute self <= len kept ->
          is_allowed now u self
          = (false, {| max_per_minute := max_per_minute self;
                       _timestamps := <[u := kept]> (_timestamps self) |}))
      /\ (len kept < max_per_minute self ->
          is_allowed now u self
          = (true, {| max_per_minute := max_per_minute self;
                      _timestamps := <[u := kept ++ [now]]> (_timestamps self) |})))
  /\ (forall (u : Z) (t1 t2 t3 t4 t5 t6 t7 : Q),
         (t1 <= t2)%Q -> (t2 <= t3)%Q -> (t3 <= t4)%Q -> (t4 <= t5)%Q ->
         (t5 <= t1 + 1)%Q ->
         (t5 <= t6)%Q -> (t6 < t1 + 60)%Q ->
         (t6 + 61 <= t7)%Q ->
         fst (run [(t1, u); (t2, u); (t3, u); (t4, u); (t5, u); (t6, u); (t7, u)]
                  (__init__ 5))
         = [(u, true); (u, true); (u, true); (u, true); (u, true);
            (u, false); (u, true)]).
Proof.
  split.
  - intros now u self w kept. split; [ | split ].
    + intros x. apply filter_kept_iff.
    + intros Hfull. unfold is_allowed. rewrite getitem_insert_eq.
      fold w. fold kept. apply Z.leb_le in Hfull. now rewrite Hfull.
    + intros Hroom. unfold is_allowed. rewrite getitem_insert_eq.
      fold w. fold kept. apply Z.leb_gt in Hroom. rewrite Hroom.
      now rewrite insert_insert_eq.
  - intros u t1 t2 t3 t4 t5 t6 t7 H12 H23 H34 H45 H51 H56 H61 H67.
    pose proof (five_then_blocked_then_free t1 t2 t3 t4 t5 t6 t7
                  H12 H23 H34 H45 H51 H56 H61 H67) as Hw.
    pose proof (run_projects u
                  [(t1, u); (t2, u); (t3, u); (t4, u); (t5, u); (t6, u); (t7, u)]
                  (__init__ 5)) as Hp.
    unfold for_user in Hp. simpl List.filter in Hp.
    rewrite Z.eqb_refl in Hp. simpl map in Hp.
    change (getitem (_timestamps (__init__ 5)) u) with (@nil Q) in Hp.
    change (max_per_minute (__init__ 5)) with 5 in Hp.
    rewrite Hw in Hp. clear Hw.
    simpl run in *.
    repeat match goal with
           | |- context [is_allowed ?n ?v ?s] =>
               destruct (is_allowed n v s) as [? ?]
           | H : context [is_allowed ?n ?v ?s] |- _ =>
               destruct (is_allowed n v s) as [? ?]
           end.
    unfold answers_to in Hp. simpl in Hp. rewrite Z.eqb_refl in Hp.
    simpl in Hp. simpl. congruence.
Qed.

Lemma is_allowed_sliding_window_witness :
  fst (run [(0%Q, 7); ((1 # 5)%Q, 7); ((2 # 5)%Q, 7); ((3 # 5)%Q, 7);
            ((4 # 5)%Q, 7); (30%Q, 7); (91%Q, 7)]
           (__init__ 5))
  = [(7, true); (7, true); (7, true); (7, true); (7, true); (7, false); (7, true)].
Proof.
  apply (proj2 is_allowed_sliding_window 7%Z
               0%Q (1 # 5)%Q (2 # 5)%Q (3 # 5)%Q (4 # 5)%Q 30%Q 91%Q);
    vm_compute; congruence.
Defined.

(** C5, as stated, fails on the boundary: with limit 1 and one timestamp
    exactly 60 seconds old, that timestamp is not older than now - 60s, so as
    worded it remains and the count reaches the limit; the code has purged it
    and admits the call. *)
Lemma is_allowed_purges_the_boundary :
  let self := {| max_per_minute := 1; _timestamps := {[ 7 := [0%Q] ]} |} in
  ~ (max_per_minute self
     <= len (remaining_as_worded 60 (getitem (_timestamps self) 7)) ->
     fst (is_allowed 60 7 self) = false).
Proof.
  intros self H.
  assert (fst (is_allowed 60 7 self) = true) as E by (vm_compute; reflexivity).
  rewrite H in E; [ discriminate | ].
  vm_compute. congruence.
Qed.

(** C9: the answers a user receives depend only on that user's own calls.
    Two runs whose call sequences have the same calls of user [u], started
    on limiters with the same limit and the same window for [u], give [u]
    the same answers, whatever the other users do. *)
Theorem rate_limiter_noninterference
        (u : Z) (calls1 calls2 : list (Q * Z)) (self1 self2 : RateLimiter.t) :
  max_per_minute self1 = max_per_minute self2 ->
  getitem (_timestamps self1) u = getitem (_timestamps self2) u ->
  for_user u calls1 = for_user u calls2 ->
  answers_to u (fst (run calls1 self1)) = answers_to u (fst (run calls2 self2)).
Proof.
  intros Hm Hw Hc. rewrite !run_projects, Hm, Hw, Hc. reflexivity.
Qed.

Lemma rate_limiter_noninterference_witness :
  answers_to 1 (fst (run [(0%Q, 1); (1%Q, 2); (2%Q, 2); (3%Q, 1)] (__init__ 1)))
  = answers_to 1 (fst (run [(0%Q, 3); (0%Q, 1); (3%Q, 1); (4%Q, 3)] (__init__ 1))).
Proof.
  apply rate_limiter_noninterference; reflexivity.
Defined.

End RateLimiterClaims.

(** ** str.strip *)

Lemma all_space_cons (c : char) (s : str) :
  all_space (c :: s) <-> isspace c = true /\ all_space s.
Proof. unfold all_space. simpl. apply andb_true_iff. Qed.

Lemma all_space_app (a b : str) : all_space (a ++ b) <-> all_space a /\ all_space b.
Proof. unfold all_space. rewrite forallb_app. apply andb_true_iff. Qed.

Lemma all_space_rev (s : str) : all_space (rev s) <-> all_space s.
Proof.
  induction s as [| c s IH]; [ reflexivity | ].
  simpl rev. rewrite all_space_app, IH, !all_space_cons.
  unfold all_space at 2. simpl. tauto.
Qed.

Lemma lstrip_all_space (s : str) : all_space s -> lstrip s = [].
Proof.
  induction s as [| c s IH]; [ reflexivity | ].
  rewrite all_space_cons. intros [Hc Hs]. simpl. rewrite Hc. auto.
Qed.

(** What [lstrip] leaves does not start with whitespace. *)
Lemma lstrip_head (s : str) :
  lstrip s = [] \/ exists c t, lstrip s = c :: t /\ isspace c = false.
Proof.
  induction s as [| c s IH]; [ now left | ].
  simpl. destruct (isspace c) eqn:Hc; [ exact IH | ].
  right. eauto.
Qed.

Lemma lstrip_nil (s : str) : lstrip s = [] -> all_space s.
Proof.
  induction s as [| c s IH]; [ reflexivity | ].
  simpl. destruct (isspace c) eqn:Hc; [ | discriminate ].
  intros H. apply all_space_cons. auto.
Qed.

Lemma lstrip_all_space_nil (s : str) : all_space (lstrip s) -> lstrip s = [].
Proof.
  destruct (lstrip_head s) as [E | (c & t & E & Hc)]; [ auto | ].
  rewrite E, all_space_cons. intros [Hc' _]. congruence.
Qed.

Lemma strip_nil_iff (s : str) : strip s = [] <-> all_space s.
Proof.
  unfold strip, rstrip. split.
  - intros E. apply (f_equal (@rev char)) in E.
    rewrite rev_involutive in E. simpl in E.
    apply lstrip_nil, all_space_rev, lstrip_all_space_nil in E.
    now apply lstrip_nil.
  - intros H. now rewrite (lstrip_all_space s H).
Qed.

Lemma strip_not_all_space (s : str) : strip s <> [] -> ~ all_space (strip s).
Proof.
  unfold strip, rstrip. intros Hne Hsp. apply Hne.
  apply all_space_rev, lstrip_all_space_nil in Hsp. now rewrite Hsp.
Qed.

(** The test [not content or not content.strip()] of the source. *)
Lemma blank_test (c : str) :
  negb (truthy c) || negb (truthy (strip c)) = true <-> all_space c.
Proof.
  rewrite orb_true_iff, !negb_true_iff, !truthy_false_iff, strip_nil_iff.
  split; [ | tauto ].
  intros [-> | H]; [ reflexivity | assumption ].
Qed.

(** ** The completion client *)

Module botFacts.
Import config bot.

(** An attempt fails exactly when the transport raised or the body it
    returned was missing, empty or whitespace only. *)
Lemma attempt_result_fails (answer : Res (option str)) (e : exn) :
  attempt_result answer = Exc e
  <-> answer = Exc e
      \/ exists content, answer = Val content /\ blank content /\ e = empty_response.
Proof.
  destruct answer as [[c |] | e']; simpl.
  - destruct (negb (truthy c) || negb (truthy (strip c))) eqn:Eb.
    + apply blank_test in Eb. split.
      * intros [= <-]. right. exists (Some c). auto.
      * intros [[=] | (content & _ & _ & ->)]. reflexivity.
    + split; [ discriminate | ].
      intros [[=] | (content & [= <-] & Hb & _)].
      apply blank_test in Hb. congruence.
  - split.
    + intros [= <-]. right. exists None. simpl. auto.
    + intros [[=] | (content & _ & _ & ->)]. reflexivity.
  - split.
    + intros [= ->]. now left.
    + intros [[= ->] | (content & [=] & _)]. reflexivity.
Qed.

Lemma attempt_result_value (answer : Res (option str)) (v : str) :
  attempt_result answer = Val v -> v <> [] /\ ~ all_space v.
Proof.
  destruct answer as [[c |] | e']; simpl; try discriminate.
  destruct (negb (truthy c) || negb (truthy (strip c))) eqn:Eb; [ discriminate | ].
  intros [= <-].
  assert (strip c <> []) as Hne.
  { intros E. apply strip_nil_iff, blank_test in E. congruence. }
  split; [ assumption | now apply strip_not_all_space ].
Qed.

Lemma attempt_once_eq attempt system_prompt user_message env w :
  attempt_once attempt system_prompt user_message env w
  = (attempt_result (env_completion env (Z.to_nat attempt)),
     log_completion (system_prompt, user_message) w).
Proof.
  unfold attempt_once, bind, create_completion, attempt_result.
  destruct (env_completion env (Z.to_nat attempt)) as [[c |] | e];
    try reflexivity.
  now destruct (negb (truthy c) || negb (truthy (strip c))).
Qed.

(** One turn of the retry loop. *)
Lemma retry_loop_step system_prompt user_message attempt rest last_error env w :
  retry_loop system_prompt user_message (attempt :: rest) last_error env w
  = match attempt_result (env_completion env (Z.to_nat attempt)) with
    | Val v => (Val v, after_attempt attempt (system_prompt, user_message) false w)
    | Exc e =>
        retry_loop system_prompt user_message rest (Some e) env
                   (after_attempt attempt (system_prompt, user_message) true w)
    end.
Proof.
  simpl retry_loop. unfold try_except. rewrite attempt_once_eq.
  destruct (attempt_result _) as [v | e]; [ reflexivity | ].
  unfold bind, after_attempt. simpl andb.
  destruct (attempt <? DEEPSEEK_RETRY_ATTEMPTS - 1); reflexivity.
Qed.

Lemma call_deepseek_unfold system_prompt user_message :
  call_deepseek system_prompt user_message
  = retry_loop system_prompt user_message [0; 1; 2] None.
Proof. reflexivity. Qed.

Lemma call_deepseek_eq system_prompt user_message env w :
  call_deepseek system_prompt user_message env w
  = (completion_outcome env,
     completion_world (system_prompt, user_message) env w).
Proof.
  rewrite call_deepseek_unfold. unfold completion_outcome, completion_world.
  rewrite retry_loop_step. change (Z.to_nat 0) with 0%nat.
  destruct (attempt_result (env_completion env 0)); [ reflexivity | ].
  rewrite retry_loop_step. change (Z.to_nat 1) with 1%nat.
  destruct (attempt_result (env_completion env 1)); [ reflexivity | ].
  rewrite retry_loop_step. change (Z.to_nat 2) with 2%nat.
  destruct (attempt_result (env_completion env 2)); reflexivity.
Qed.

Lemma completion_world_frame request env w :
  user_data (completion_world request env w) = user_data w
  /\ rate_limiter (completion_world request env w) = rate_limiter w
  /\ telegram_log (completion_world request env w) = telegram_log w.
Proof.
  unfold completion_world.
  destruct (attempt_result (env_completion env 0));
    [ | destruct (attempt_result (env_completion env 1)) ]; auto.
Qed.

Lemma completion_world_requests request env w :
  exists n : nat,
    (1 <= n <= 3)%nat
    /\ completion_log (completion_world request env w)
       = completion_log w ++ repeat request n.
Proof.
  unfold completion_world.
  destruct (attempt_result (env_completion env 0));
    [ exists 1%nat | destruct (attempt_result (env_completion env 1));
                     [ exists 2%nat | exists 3%nat ] ];
    simpl; rewrite <- ?app_assoc; split; auto; lia.
Qed.

End botFacts.

(** ** Claims about the completion client *)

Section CompletionClaims.
Import config bot botFacts.

Variables (system_prompt : SystemPrompt) (user_message : str).
Variables (env : Env) (w : World).

Let answer (k : nat) : Res str := attempt_result (env_completion env k).
Let once : World -> World := log_completion (system_prompt, user_message).

(** C3: [call_deepseek] makes at most three attempts.  An attempt fails
    exactly when the transport raises or the empty-response check does, and
    every failure but the last is followed by a sleep of 2^attempt seconds
    (1, then 2) and another attempt.  The first attempt that succeeds gives
    the value returned, so two failures followed by a success return that
    value after exactly three requests; when all three fail, the error of
    the last attempt is raised and no sleep follows it. *)
Theorem call_deepseek_retry_policy :
  (forall k e,
      answer k = Exc e
      <-> env_completion env k = Exc e
          \/ exists content,
              env_completion env k = Val content /\ blank content
              /\ e = empty_response)
  /\ (forall v,
         answer 0 = Val v ->
         call_deepseek system_prompt user_message env w = (Val v, once w))
  /\ (forall e0 v,
         answer 0 = Exc e0 -> answer 1 = Val v ->
         call_deepseek system_prompt user_message env w
         = (Val v, once (log_sleep 1 (once w))))
  /\ (forall e0 e1 v,
         answer 0 = Exc e0 -> answer 1 = Exc e1 -> answer 2 = Val v ->
         call_deepseek system_prompt user_message env w
         = (Val v, once (log_sleep 2 (once (log_sleep 1 (once w))))))
  /\ (forall e0 e1 e2,
         answer 0 = Exc e0 -> answer 1 = Exc e1 -> answer 2 = Exc e2 ->
         call_deepseek system_prompt user_message env w
         = (Exc e2, once (log_sleep 2 (once (log_sleep 1 (once w))))))
  /\ (exists n : nat,
         (1 <= n <= 3)%nat
         /\ completion_log (snd (call_deepseek system_prompt user_message env w))
            = completion_log w ++ repeat (system_prompt, user_message) n).
Proof.
  split; [ intros k e; apply attempt_result_fails | ].
  rewrite call_deepseek_eq. unfold completion_outcome, completion_world.
  fold (answer 0) (answer 1) (answer 2). fold once.
  repeat split.
  - intros v ->. reflexivity.
  - intros e0 v -> ->. reflexivity.
  - intros e0 e1 v -> -> ->. reflexivity.
  - intros e0 e1 e2 -> -> ->. reflexivity.
  - apply (completion_world_requests (system_prompt, user_message) env w).
Qed.

(** C4: a response whose body is missing, empty or whitespace only makes
    the attempt raise the validation error instead of returning; when every
    attempt gets such a body [call_deepseek] raises that error; and whatever
    [call_deepseek] returns is neither empty nor whitespace only. *)
Theorem call_deepseek_never_returns_blank :
  (forall attempt content,
      env_completion env (Z.to_nat attempt) = Val content -> blank content ->
      fst (attempt_once attempt system_prompt user_message env w)
      = Exc empty_response)
  /\ ((forall k, (k < 3)%nat ->
                 exists content, env_completion env k = Val content /\ blank content) ->
      fst (call_deepseek system_prompt user_message env w) = Exc empty_response)
  /\ (forall v,
         fst (call_deepseek system_prompt user_message env w) = Val v ->
         v <> [] /\ ~ all_space v).
Proof.
  split; [ | split ].
  - intros attempt content Hc Hb. rewrite attempt_once_eq. simpl.
    apply attempt_result_fails. right. eauto.
  - intros Hall. rewrite call_deepseek_eq. simpl. unfold completion_outcome.
    assert (forall k, (k < 3)%nat ->
                      attempt_result (env_completion env k) = Exc empty_response)
      as Hf.
    { intros k Hk. destruct (Hall k Hk) as (content & Hc & Hb).
      apply attempt_result_fails. right. eauto. }
    rewrite !Hf by lia. reflexivity.
  - intros v. rewrite call_deepseek_eq. simpl. unfold completion_outcome.
    destruct (attempt_result (env_completion env 0)) eqn:E0.
    { intros [= <-]. eapply attempt_result_value; eassumption. }
    destruct (attempt_result (env_completion env 1)) eqn:E1.
    { intros [= <-]. eapply attempt_result_value; eassumption. }
    intros E2. eapply attempt_result_value; eassumption.
Qed.

End CompletionClaims.

(** ** Rules for running handlers *)

Module wpRules.
Import config bot botFacts.

Section Rules.
Context {A : Type}.
Variables (env : Env) (w : World).

Lemma wp_ret (a : A) Q : Q (Val a) w -> wp (ret a) env w Q.
Proof. exact (fun H => H). Qed.

Lemma wp_raise (e : exn) (Q : Res A -> World -> Prop) :
  Q (Exc e) w -> wp (raise e) env w Q.
Proof. exact (fun H => H). Qed.

Lemma wp_bind {B : Type} (m : M B) (k : B -> M A) Q :
  wp m env w (fun r w1 =>
                match r with
                | Val b => wp (k b) env w1 Q
                | Exc e => Q (Exc e) w1
                end) ->
  wp (bind m k) env w Q.
Proof.
  unfold wp, bind. destruct (m env w) as [[b | e] w1]; simpl; auto.
Qed.

Lemma wp_try_except (body : M A) (handler : exn -> M A) Q :
  wp body env w (fun r w1 =>
                   match r with
                   | Val a => Q (Val a) w1
                   | Exc e => wp (handler e) env w1 Q
                   end) ->
  wp (try_except body handler) env w Q.
Proof.
  unfold wp, try_except. destruct (body env w) as [[a | e] w1]; simpl; auto.
Qed.

Lemma wp_conseq (m : M A) (Q Q' : Res A -> World -> Prop) :
  wp m env w Q -> (forall r w1, Q r w1 -> Q' r w1) -> wp m env w Q'.
Proof. unfold wp. auto. Qed.

End Rules.

Section PrimitiveRules.
Variables (env : Env) (w : World).

Lemma wp_try_except_BadRequest_pass (body : M unit) Q :
  wp body env w (fun r w1 =>
                   match r with
                   | Exc (BadRequest _) => Q (Val tt) w1
                   | _ => Q r w1
                   end) ->
  wp (try_except_BadRequest_pass body) env w Q.
Proof.
  unfold wp, try_except_BadRequest_pass.
  destruct (body env w) as [[[] | e] w1]; simpl; auto.
  destruct e; auto.
Qed.

Lemma wp_get_user_data Q :
  Q (Val (user_data w)) w -> wp get_user_data env w Q.
Proof. exact (fun H => H). Qed.

Lemma wp_set_user_data f Q :
  Q (Val tt) (with_user_data f w) -> wp (set_user_data f) env w Q.
Proof. exact (fun H => H). Qed.

Lemma wp_telegram c Q :
  match env_telegram env (length (telegram_log w)) c with
  | None => Q (Val tt) (log_telegram c w)
  | Some e => Q (Exc e) (log_telegram c w)
  end ->
  wp (telegram c) env w Q.
Proof.
  unfold wp, telegram.
  destruct (env_telegram env (length (telegram_log w)) c); auto.
Qed.

Lemma wp_rate_limiter_is_allowed user_id Q :
  Q (Val (fst (RateLimiter.is_allowed (env_now env) user_id (rate_limiter w))))
    (with_rate_limiter
       (snd (RateLimiter.is_allowed (env_now env) user_id (rate_limiter w))) w) ->
  wp (rate_limiter_is_allowed user_id) env w Q.
Proof.
  unfold wp, rate_limiter_is_allowed.
  destruct (RateLimiter.is_allowed _ _ _); auto.
Qed.

Lemma wp_call_deepseek system_prompt user_message Q :
  Q (completion_outcome env)
    (completion_world (system_prompt, user_message) env w) ->
  wp (call_deepseek system_prompt user_message) env w Q.
Proof. unfold wp. now rewrite call_deepseek_eq. Qed.

End PrimitiveRules.

(** Sending chunks changes nothing but the log of platform calls, and ends
    well when the platform delivers. *)
Lemma wp_for_each_reply env (chunks : list str) :
  forall w,
    wp (for_each chunks (fun chunk => telegram (reply_text (Generated chunk) None false)))
       env w
       (fun r w1 =>
          same_but_logs w w1
          /\ completion_log w1 = completion_log w
          /\ (delivers env -> r = Val tt)).
Proof.
  induction chunks as [| chunk rest IH]; intros w.
  - apply wp_ret. unfold same_but_logs. auto.
  - simpl for_each. apply wp_bind, wp_telegram.
    destruct (env_telegram env _ _) eqn:E.
    + unfold same_but_logs. simpl. repeat split; auto.
      intros Hd. rewrite Hd in E by reflexivity. discriminate.
    + eapply wp_conseq; [ apply IH | ].
      simpl. unfold same_but_logs. simpl. intros r w1 ((-> & ->) & -> & Hr). auto.
Qed.

Lemma wp_send_result env w result Q :
  (forall r w1,
      same_but_logs w w1 -> completion_log w1 = completion_log w ->
      (delivers env -> r = Val tt) -> Q r w1) ->
  wp (send_result result) env w Q.
Proof.
  intros HQ. unfold send_result.
  destruct (len result <=? MAX_MESSAGE_LENGTH).
  - apply wp_telegram.
    destruct (env_telegram env _ _) eqn:E;
      apply HQ; unfold same_but_logs; simpl; auto.
    intros Hd. rewrite Hd in E by reflexivity. discriminate.
  - destruct (split_into_chunks_bounded MAX_MESSAGE_LENGTH ltac:(reflexivity) result)
      as (chunks & -> & _).
    eapply wp_conseq; [ apply wp_for_each_reply | ].
    simpl. intros r w1 (Hs & Hc & Hr). auto.
Qed.

End wpRules.

(** ** Running the handlers *)

Module handlerFacts.
Import config bot botFacts wpRules.

Lemma completion_world_invoked request env w :
  completion_log (completion_world request env w) <> completion_log w.
Proof.
  destruct (completion_world_requests request env w) as (n & Hn & E).
  rewrite E. intros E'. apply (f_equal (@length _)) in E'.
  rewrite length_app, repeat_length in E'. lia.
Qed.

Lemma completion_world_user_data request env w :
  user_data (completion_world request env w) = user_data w.
Proof. apply completion_world_frame. Qed.

(** One step of a handler, by the rule for the construct at its head. *)
Ltac wp_step :=
  lazymatch goal with
  | |- wp (call_deepseek _ _) _ _ _ => apply wp_call_deepseek
  | |- wp (send_result _) _ _ _ => apply wp_send_result; intros ? ? [? ?] ? ?
  | |- wp (bind _ _) _ _ _ => apply wp_bind
  | |- wp (try_except_BadRequest_pass _) _ _ _ =>
      apply wp_try_except_BadRequest_pass
  | |- wp (try_except _ _) _ _ _ => apply wp_try_except
  | |- wp get_user_data _ _ _ => apply wp_get_user_data
  | |- wp (set_user_data _) _ _ _ => apply wp_set_user_data
  | |- wp (telegram _) _ _ _ => apply wp_telegram
  | |- wp (rate_limiter_is_allowed _) _ _ _ => apply wp_rate_limiter_is_allowed
  | |- wp (ret _) _ _ _ => apply wp_ret
  | |- wp (raise _) _ _ _ => apply wp_raise
  | |- wp choose_category_menu _ _ _ => unfold choose_category_menu
  | |- wp (report_error _ _) _ _ _ => unfold report_error
  | |- wp (match ?x with _ => _ end) _ _ _ => destruct x eqn:?
  | |- match ?x with _ => _ end => destruct x eqn:?
  end.

(** Projections of the worlds a run has built. *)
Ltac world_simpl :=
  repeat
    (cbn [user_data rate_limiter telegram_log completion_log sleep_log
          log_telegram log_completion log_sleep with_user_data
          with_rate_limiter] in *;
     repeat match goal with
            | H : user_data ?w1 = _ |- _ => rewrite H in *; clear H
            | H : completion_log ?w1 = _ |- _ => rewrite H in *; clear H
            end;
     rewrite ?completion_world_user_data in * ).

(** Some call the platform was asked to make did not go through. *)
Ltac platform_failed :=
  let Hd := fresh "Hd" in
  let Hb := fresh "Hb" in
  intros [Hd Hb];
  first
    [ match goal with
      | H : env_telegram _ _ _ = Some _ |- _ =>
          rewrite Hd in H by reflexivity; discriminate H
      end
    | match goal with
      | H : env_telegram _ ?k status_delete = Some _ |- _ =>
          destruct (Hb k) as [E | [? E]]; rewrite E in H; discriminate H
      end
    | match goal with
      | H : delivers _ -> _ = Val tt |- _ => specialize (H Hd); discriminate H
      end ].

Ltac delivered :=
  let Hd := fresh "Hd" in
  intros Hd;
  first
    [ reflexivity
    | match goal with
      | H : env_telegram _ _ _ = Some _ |- _ =>
          rewrite Hd in H by reflexivity; discriminate H
      end ].

Lemma handle_description_outcome lower update env w :
  wp (handle_description lower update) env w (description_outcome update env w).
Proof.
  unfold handle_description.
  repeat wp_step.
  all: unfold description_outcome.
  all: world_simpl.
  all: try solve [ left; repeat split; congruence ].
  all: right; (split; [ exact (completion_world_invoked _ _ _) | ]).
  all: eexists; (split; [ eassumption | ]).
  all: match goal with H : completion_outcome _ = _ |- _ => rewrite H end.
  all: try solve [ split; [ reflexivity | split; [ congruence | delivered ] ] ].
  all: try solve [ left; split; reflexivity ].
  all: solve [ right; split; [ discriminate | split; [ platform_failed | auto ] ] ].
Qed.

Lemma handle_refinement_outcome lower update env w :
  wp (handle_refinement lower update) env w (refinement_outcome env w).
Proof.
  unfold handle_refinement.
  repeat wp_step.
  all: unfold refinement_outcome.
  all: world_simpl.
  all: (split; [ reflexivity | ]).
  all: try solve [ left; split; reflexivity ].
  all: right; (split; [ exact (completion_world_invoked _ _ _) | ]).
  all: (split; [ congruence | ]).
  all: match goal with H : completion_outcome _ = _ |- _ => rewrite H end.
  all: try solve [ split; [ reflexivity | delivered ] ].
  all: try solve [ right; split; [ reflexivity | delivered ] ].
  all: solve [ left; split; [ reflexivity | platform_failed ] ].
Qed.

Lemma category_callback_history update env w :
  wp (category_callback update) env w
     (fun _ w' => ud_history (user_data w') = ud_history (user_data w)).
Proof.
  unfold category_callback.
  repeat wp_step.
  all: reflexivity.
Qed.


(** A generation that went through, read off the two worlds. *)
Lemma handle_description_shown lower update env w w' :
  handle_description lower update env w = (Val PROMPT_SHOWN, w') ->
  exists cv result,
    ud_category (user_data w) = Some cv
    /\ completion_outcome env = Val result
    /\ completion_log w' <> completion_log w
    /\ user_data w'
       = set_generated result cv (stripped_text update)
           (remember (history_entry cv result) (user_data w)).
Proof.
  intros Hrun.
  pose proof (handle_description_outcome lower update env w) as Hout.
  unfold wp in Hout. rewrite Hrun in Hout. simpl in Hout.
  destruct Hout as [(_ & _ & Hno) | (Hcalled & cv & Hcat & Hcase)];
    [ congruence | ].
  exists cv. destruct (completion_outcome env) as [result | e].
  - exists result.
    destruct Hcase as [(_ & Hud) | (Hno & _)]; [ auto | congruence ].
  - destruct Hcase as (_ & Hmenu & _).
    specialize (Hmenu _ eq_refl). discriminate.
Qed.


Lemma length_slice_from_neg {A : Type} (l : list A) (n : Z) :
  0 < n -> len (slice_from l (- n)) <= n.
Proof.
  intros Hn. rewrite slice_from_neg by assumption.
  unfold len. rewrite length_drop. lia.
Qed.





End handlerFacts.

(** ** Claims about the completion client, at sample inputs *)

Lemma call_deepseek_retry_policy_witness :
  let request := (bot.SYSTEM_PROMPTS config.CODE, of_ascii "a REST API in Go") in
  bot.call_deepseek (fst request) (snd request) sample.env_flaky sample.fresh_world
  = (Val (of_ascii "Write a REST API"),
     bot.log_completion request
       (bot.log_sleep 2
          (bot.log_completion request
             (bot.log_sleep 1 (bot.log_completion request sample.fresh_world))))).
Proof.
  apply (proj1 (proj2 (proj2 (proj2
           (call_deepseek_retry_policy
              (bot.SYSTEM_PROMPTS config.CODE) (of_ascii "a REST API in Go")
              sample.env_flaky sample.fresh_world)))))
    with (e0 := sample.timeout_error) (e1 := sample.timeout_error);
    reflexivity.
Defined.

Lemma call_deepseek_never_returns_blank_witness :
  fst (bot.call_deepseek (bot.SYSTEM_PROMPTS config.CODE) (of_ascii "a REST API in Go")
                         sample.env_blank sample.fresh_world)
  = Exc bot.empty_response.
Proof.
  apply (proj1 (proj2
           (call_deepseek_never_returns_blank
              (bot.SYSTEM_PROMPTS config.CODE) (of_ascii "a REST API in Go")
              sample.env_blank sample.fresh_world))).
  intros k _. exists (Some (of_ascii "   ")). split; reflexivity.
Defined.

(** ** Claims about the conversation controller *)

Section ControllerClaims.
Import config bot botFacts wpRules handlerFacts.

Variable lower : str -> str.


(** C2, as amended: when every attempt of the completion client fails, a
    first generation leaves the user data as it was and can only return
    MainMenu, and a refinement leaves the user data as it was, the stored
    last prompt included, and can only return PromptShown.  The state is
    returned whenever the chat platform delivers the handler's replies; the
    replies of the error path are not guarded, so nothing is promised
    otherwise. *)
Theorem completion_failure_is_recoverable (update : Update) (env : Env) (w : World) :
  (forall k, (k < 3)%nat ->
             exists e, attempt_result (env_completion env k) = Exc e) ->
  (completion_log (snd (handle_description lower update env w)) <> completion_log w ->
   user_data (snd (handle_description lower update env w)) = user_data w
   /\ (forall s, fst (handle_description lower update env w) = Val s -> s = MAIN_MENU)
   /\ (delivers env -> fst (handle_description lower update env w) = Val MAIN_MENU))
  /\ (completion_log (snd (handle_refinement lower update env w)) <> completion_log w ->
      user_data (snd (handle_refinement lower update env w)) = user_data w
      /\ ud_last_prompt (user_data (snd (handle_refinement lower update env w)))
         = ud_last_prompt (user_data w)
      /\ (forall s, fst (handle_refinement lower update env w) = Val s ->
                    s = PROMPT_SHOWN)
      /\ (delivers env ->
          fst (handle_refinement lower update env w) = Val PROMPT_SHOWN)).
Proof.
  intros Hfail.
  assert (exists e, completion_outcome env = Exc e) as (e & Hres).
  { unfold completion_outcome.
    destruct (Hfail 0%nat ltac:(lia)) as (e0 & ->).
    destruct (Hfail 1%nat ltac:(lia)) as (e1 & ->).
    destruct (Hfail 2%nat ltac:(lia)) as (e2 & ->). eauto. }
  split.
  - intros Hcalled.
    pose proof (handle_description_outcome lower update env w) as Hout.
    unfold wp in Hout.
    destruct Hout as [(Hsame & _) | (_ & cv & _ & Hcase)]; [ contradiction | ].
    rewrite Hres in Hcase. exact Hcase.
  - intros Hcalled.
    pose proof (handle_refinement_outcome lower update env w) as Hout.
    unfold wp in Hout.
    destruct Hout as (_ & [(Hsame & _) | (_ & Hstate & Hcase)]);
      [ contradiction | ].
    rewrite Hres in Hcase. destruct Hcase as (Hud & Hshown).
    rewrite Hud. auto.
Qed.


End ControllerClaims.

(** ** Claims about the conversation controller, at sample inputs *)

Section ControllerSamples.
Import config bot sample scenes.





Lemma completion_failure_is_recoverable_witness :
  fst (handle_description ascii_lower (text_update "a REST API in Go")
                          env_failing code_chosen)
  = Val MAIN_MENU
  /\ fst (handle_refinement ascii_lower (text_update "make it shorter")
                            env_failing prompt_shown)
     = Val PROMPT_SHOWN.
Proof.
  assert (forall k, (k < 3)%nat ->
                    exists e, attempt_result (env_completion env_failing k) = Exc e)
    as Hfail by (intros k _; exists timeout_error; reflexivity).
  assert (delivers env_failing) as Hd by (intros k c _; reflexivity).
  split.
  - apply (proj1 (completion_failure_is_recoverable
                    ascii_lower (text_update "a REST API in Go")
                    env_failing code_chosen Hfail)).
    + vm_compute. discriminate.
    + exact Hd.
  - apply (proj2 (completion_failure_is_recoverable
                    ascii_lower (text_update "make it shorter")
                    env_failing prompt_shown Hfail)).
    + vm_compute. discriminate.
    + exact Hd.
Defined.

(** C2, as stated, fails when the chat platform does: the completion client
    is called and fails three times, the session data are untouched, and
    the replies of the error path raise, so that neither handler returns a
    conversation state. *)
Lemma completion_failure_can_raise :
  let described := handle_description ascii_lower (text_update "a REST API in Go")
                                      env_cut_off code_chosen in
  let refined := handle_refinement ascii_lower (text_update "make it shorter")
                                   env_cut_off prompt_shown in
  (forall k, (k < 3)%nat ->
             exists e, attempt_result (env_completion env_cut_off k) = Exc e)
  /\ completion_log (snd described) <> completion_log code_chosen
  /\ fst described = Exc network_error
  /\ fst described <> Val MAIN_MENU
  /\ completion_log (snd refined) <> completion_log prompt_shown
  /\ fst refined = Exc network_error
  /\ fst refined <> Val PROMPT_SHOWN.
Proof.
  intros described refined.
  split; [ intros k _; exists timeout_error; reflexivity | ].
  split; [ vm_compute; discriminate | ].
  split; [ reflexivity | ].
  split; [ vm_compute; discriminate | ].
  split; [ vm_compute; discriminate | ].
  split; [ reflexivity | ].
  vm_compute. discriminate.
Qed.




End ControllerSamples.

(** * More properties *)

(** ** More on the chunker *)

Lemma split_from_nil (s : str) :
  forall cur, split_from cur s = [] -> cur = [] /\ all_space s.
Proof.
  induction s as [| c s IH]; intros cur; simpl.
  - destruct cur; [ intros _; split; reflexivity | discriminate ].
  - destruct (isspace c) eqn:Hc.
    + destruct cur; simpl; [ | discriminate ].
      intros H. destruct (IH [] H) as [_ Hs]. split; [ reflexivity | ].
      apply all_space_cons. auto.
    + intros H. destruct (IH (c :: cur) H) as [Hcur _]. discriminate.
Qed.

Lemma split_nil_iff (s : str) : split s = [] <-> all_space s.
Proof.
  split; [ | apply split_from_all_space ].
  intros H. now destruct (split_from_nil s [] H).
Qed.

Lemma join_nonempty (sep : str) (ts : list str) :
  ts <> [] -> Forall (fun t => t <> []) ts -> join sep ts <> [].
Proof.
  destruct ts as [| t ts]; [ congruence | ].
  intros _ H. apply Forall_inv in H.
  destruct ts; simpl; [ assumption | ].
  destruct t; [ congruence | discriminate ].
Qed.

Lemma ceil_div_last (n d : Z) (k : nat) :
  0 < d -> 0 <= n -> (k < Z.to_nat (ceil_div n d))%nat -> Z.of_nat k * d < n.
Proof.
  intros Hd Hn Hk. unfold ceil_div in Hk.
  pose proof (Z.div_mod (n + d - 1) d ltac:(lia)) as E.
  pose proof (Z.mod_pos_bound (n + d - 1) d Hd) as B.
  assert (0 <= (n + d - 1) / d) by (apply Z.div_pos; lia).
  nia.
Qed.

Lemma hard_slices_nonempty (max_length : Z) (part : str) :
  0 < max_length ->
  forall pieces, hard_slices part max_length = Val pieces ->
                 Forall (fun p => p <> []) pieces.
Proof.
  intros Hpos pieces. rewrite hard_slices_windows by assumption.
  intros [= <-]. apply Forall_forall. intros p Hin.
  apply list_elem_of_In, in_map_iff in Hin. destruct Hin as (k & <- & Hk).
  apply in_seq in Hk. destruct Hk as [_ Hk]. simpl in Hk.
  pose proof (ceil_div_last (len part) max_length k Hpos (len_nonneg part) Hk) as Hlt.
  intros E. apply (f_equal (@length _)) in E.
  rewrite length_take, length_drop in E. simpl in E. unfold len in Hlt. nia.
Qed.

Section Rechunk.
Variable max_length : Z.
Hypothesis max_length_pos : 0 < max_length.

Lemma seg_chunks_nonempty (g : segment) :
  seg_ok max_length g -> Forall is_token (seg_tokens g) ->
  Forall (fun c => c <> []) (seg_chunks max_length g).
Proof.
  destruct g as [ts | t]; simpl; intros Hok Htok.
  - constructor; [ | constructor ].
    apply join_nonempty; [ tauto | ].
    eapply Forall_impl; [ exact Htok | ]. intros t [Hne _]. exact Hne.
  - destruct (hard_slices t max_length) as [pieces |] eqn:E; [ | constructor ].
    eapply hard_slices_nonempty; eassumption.
Qed.

Lemma chunks_nonempty (text : str) (chunks : list str) :
  split_into_chunks text max_length = Val chunks ->
  Forall (fun c => c <> []) chunks.
Proof.
  destruct (Z_le_gt_dec (len text) max_length) as [Hshort | Hlong].
  - destruct text as [| c text].
    + intros [= <-]. constructor.
    + rewrite split_into_chunks_short by (assumption || discriminate).
      intros [= <-]. constructor; [ discriminate | constructor ].
  - destruct (split_into_chunks_long max_length max_length_pos text ltac:(lia))
      as (segs & Hrun & Htok & Hok).
    rewrite Hrun. intros [= <-].
    assert (Forall is_token (flat_map seg_tokens segs)) as Hall
        by (rewrite Htok; apply split_tokens).
    clear Hrun Htok. induction Hok as [| g segs Hg _ IH]; simpl; [ constructor | ].
    simpl in Hall. apply Forall_app in Hall. destruct Hall as [Hg' Hrest].
    apply Forall_app. split; [ now apply seg_chunks_nonempty | now apply IH ].
Qed.

End Rechunk.

Lemma chunks_fit (text : str) (max_length : Z) (chunks : list str) :
  0 < max_length ->
  split_into_chunks text max_length = Val chunks ->
  Forall (fun c => c <> [] /\ len c <= max_length) chunks.
Proof.
  intros Hpos Hrun.
  pose proof (chunks_nonempty max_length Hpos text chunks Hrun) as Hne.
  destruct (split_into_chunks_bounded max_length Hpos text) as (chunks' & Hrun' & Hb).
  assert (chunks' = chunks) as -> by congruence.
  clear Hrun Hrun'. induction Hne as [| c chunks Hc _ IH]; [ constructor | ].
  inversion Hb as [| ? ? Hcb Hrest]; subst.
  constructor; [ auto | now apply IH ].
Qed.

(** X1: for a positive limit every chunk returned is non-empty and within
    the limit, and chunking a chunk again with the same limit gives back
    that chunk alone: the result of [split_into_chunks] is stable. *)
Theorem rechunking_is_identity (text : str) (max_length : Z) (chunks : list str) :
  0 < max_length ->
  split_into_chunks text max_length = Val chunks ->
  Forall (fun c => c <> [] /\ len c <= max_length
                   /\ split_into_chunks c max_length = Val [c]) chunks.
Proof.
  intros Hpos Hrun.
  eapply Forall_impl; [ exact (chunks_fit text max_length chunks Hpos Hrun) | ].
  intros c [Hne Hlen]. repeat split; try assumption.
  now apply split_into_chunks_short.
Qed.

Lemma rechunking_is_identity_witness :
  Forall (fun c => c <> [] /\ len c <= 3 /\ split_into_chunks c 3 = Val [c])
         [of_ascii "aaa"; of_ascii "a"; of_ascii "b"; of_ascii "cc"; of_ascii "d"].
Proof.
  apply (rechunking_is_identity (of_ascii "aaaa b  cc d") 3); [ lia | reflexivity ].
Defined.

(** X2: with a limit of zero, a text that holds a token does not come back
    as chunks: the first token is over-long, and the [range] of its hard
    slices has step zero and raises [ValueError]. *)
Theorem zero_limit_raises (text : str) :
  ~ all_space text ->
  split_into_chunks text 0
  = Exc (ValueError (of_ascii "range() arg 3 must not be zero")).
Proof.
  intros Hns. unfold split_into_chunks.
  destruct text as [| c text]; [ exfalso; apply Hns; reflexivity | ].
  simpl negb. cbv iota.
  destruct (len (c :: text) <=? 0) eqn:E.
  { apply Z.leb_le in E. unfold len in E. simpl in E. lia. }
  destruct (split (c :: text)) as [| t rest] eqn:Es.
  { apply split_nil_iff in Es. contradiction. }
  pose proof (split_tokens (c :: text)) as Htok. rewrite Es in Htok.
  apply Forall_inv in Htok. destruct Htok as [Hne _].
  assert (0 < len t) as Hlen.
  { destruct t; [ congruence | unfold len; simpl; lia ]. }
  simpl pack.
  destruct (0 + (len t + 0) <=? 0) eqn:E1; [ apply Z.leb_le in E1; lia | ].
  apply Z.ltb_lt in Hlen. rewrite Hlen. reflexivity.
Qed.

Lemma zero_limit_raises_witness :
  split_into_chunks (of_ascii " a b") 0
  = Exc (ValueError (of_ascii "range() arg 3 must not be zero")).
Proof.
  apply zero_limit_raises. vm_compute. discriminate.
Defined.

Lemma pack_negative (max_length : Z) (parts : list str) :
  max_length < 0 -> pack max_length parts [] [] 0 = Val [].
Proof.
  intros Hneg. induction parts as [| part rest IH]; [ reflexivity | ].
  pose proof (len_nonneg part) as Hp.
  simpl pack.
  destruct (0 + (len part + 0) <=? max_length) eqn:E1;
    [ apply Z.leb_le in E1; lia | ].
  destruct (max_length <? len part) eqn:E2; [ | apply Z.ltb_ge in E2; lia ].
  unfold hard_slices, range, range_len.
  destruct (max_length =? 0) eqn:E3; [ apply Z.eqb_eq in E3; lia | ].
  destruct (0 <? max_length) eqn:E4; [ apply Z.ltb_lt in E4; lia | ].
  destruct (len part <? 0) eqn:E5; [ apply Z.ltb_lt in E5; lia | ].
  simpl. exact IH.
Qed.

(** X3: with a negative limit every text gives the empty list: each token
    is over-long and the [range] of its hard slices is empty, so the text is
    dropped without an error. *)
Theorem negative_limit_drops_text (text : str) (max_length : Z) :
  max_length < 0 ->
  split_into_chunks text max_length = Val [].
Proof.
  intros Hneg. unfold split_into_chunks.
  destruct text as [| c text]; [ reflexivity | ].
  simpl negb. cbv iota.
  destruct (len (c :: text) <=? max_length) eqn:E.
  { apply Z.leb_le in E. unfold len in E. simpl in E. lia. }
  now apply pack_negative.
Qed.

Lemma negative_limit_drops_text_witness :
  split_into_chunks (of_ascii "hello world") (-1) = Val [].
Proof. apply negative_limit_drops_text. lia. Defined.

(** X4: with a positive limit, a text that is not whitespace only yields at
    least one chunk. *)
Theorem some_chunk_for_some_token (text : str) (max_length : Z) :
  0 < max_length -> ~ all_space text ->
  exists first rest, split_into_chunks text max_length = Val (first :: rest).
Proof.
  intros Hpos Hns.
  destruct (split_into_chunks_resplit max_length Hpos text)
    as (chunks & Hrun & Hcat & _).
  destruct chunks as [| first rest]; [ | eauto ].
  exfalso. simpl in Hcat.
  destruct (split text) as [| t ts] eqn:Es.
  { apply split_nil_iff in Es. contradiction. }
  pose proof (split_tokens text) as Htok. rewrite Es in Htok.
  apply Forall_inv in Htok. destruct Htok as [Hne _].
  simpl in Hcat. destruct t; [ congruence | discriminate ].
Qed.

Lemma some_chunk_for_some_token_witness :
  exists first rest, split_into_chunks (of_ascii " a b") 1 = Val (first :: rest).
Proof.
  apply some_chunk_for_some_token; [ lia | vm_compute; discriminate ].
Defined.

(** ** More on the rate limiter *)

Section More.
Import RateLimiter RateLimiterFacts RateLimiterMore.

Lemma window_after_app limit pre post w :
  window_after limit (pre ++ post) w
  = window_after limit post (window_after limit pre w).
Proof.
  revert w. induction pre as [| t pre IH]; intros w; [ reflexivity | ].
  simpl. apply IH.
Qed.

Lemma accepted_app limit pre post w :
  accepted limit (pre ++ post) w
  = accepted limit pre w ++ accepted limit post (window_after limit pre w).
Proof.
  revert w. induction pre as [| t pre IH]; intros w; [ reflexivity | ].
  simpl. destruct (window_step limit t w) as [ok w1]. simpl.
  rewrite IH. now destruct ok.
Qed.

Lemma accepted_combine limit times w :
  map fst (List.filter snd (combine times (window_run limit times w)))
  = accepted limit times w.
Proof.
  revert w. induction times as [| t times IH]; intros w; [ reflexivity | ].
  simpl. destruct (window_step limit t w) as [ok w1]. simpl.
  destruct ok; simpl; now rewrite IH.
Qed.

Lemma run_window (u : Z) (calls : list (Q * Z)) :
  forall self,
    getitem (_timestamps (snd (run calls self))) u
    = window_after (max_per_minute self) (map fst (for_user u calls))
                   (getitem (_timestamps self) u)
    /\ max_per_minute (snd (run calls self)) = max_per_minute self.
Proof.
  induction calls as [| [now v] rest IH]; intros self; [ split; reflexivity | ].
  simpl run.
  destruct (is_allowed now v self) as [ok self1] eqn:E1.
  destruct (run rest self1) as [answers self2] eqn:E2.
  destruct (IH self1) as [IHw IHm]. rewrite E2 in IHw, IHm. simpl in IHw, IHm.
  pose proof (is_allowed_window now v self) as (_ & Hw & Hm).
  rewrite E1 in Hw, Hm. simpl in Hw, Hm.
  simpl snd. rewrite IHw, IHm, Hm. split; [ | reflexivity ].
  unfold for_user. simpl.
  destruct (v =? u) eqn:Eu.
  - apply Z.eqb_eq in Eu. subst v. simpl. now rewrite Hw.
  - apply Z.eqb_neq in Eu.
    pose proof (is_allowed_other now v u self Eu) as Ho.
    rewrite E1 in Ho. simpl in Ho. now rewrite Ho.
Qed.

Lemma accepted_for_eq u calls self :
  accepted_for u calls self
  = accepted (max_per_minute self) (map fst (for_user u calls))
             (getitem (_timestamps self) u).
Proof.
  unfold accepted_for. rewrite run_projects. apply accepted_combine.
Qed.

(** A later purge makes an earlier one redundant. *)
Lemma filter_absorbs (t now : Q) (l : list Q) :
  (t <= now)%Q ->
  List.filter (fun x => Qgtb x (now - 60)%Q) (List.filter (fun x => Qgtb x (t - 60)%Q) l)
  = List.filter (fun x => Qgtb x (now - 60)%Q) l.
Proof.
  intros Hle. induction l as [| x l IH]; [ reflexivity | ].
  simpl. destruct (Qgtb x (t - 60)) eqn:E1.
  - simpl. now rewrite IH.
  - rewrite IH. apply Qgtb_false in E1.
    assert (Qgtb x (now - 60) = false) as -> by (apply Qgtb_false; lra).
    reflexivity.
Qed.

Lemma sorted_snoc (l : list Q) (x : Q) :
  StronglySorted Qle (l ++ [x]) ->
  StronglySorted Qle l /\ Forall (fun y => (y <= x)%Q) l.
Proof.
  induction l as [| a l IH]; simpl; intros H.
  - split; constructor.
  - inversion H as [| ? ? Hs Ha]; subst.
    destruct (IH Hs) as [Hl Hx].
    apply Forall_app in Ha. destruct Ha as [Hal Hax].
    apply Forall_inv in Hax.
    split; constructor; assumption.
Qed.

(** Under a clock that does not go back, what a purge keeps of the window is
    what it keeps of the calls let through. *)
Lemma window_view limit (times : list Q) :
  StronglySorted Qle times ->
  forall now, Forall (fun t => (t <= now)%Q) times ->
    List.filter (fun t => Qgtb t (now - 60)%Q) (window_after limit times [])
    = List.filter (fun t => Qgtb t (now - 60)%Q) (accepted limit times []).
Proof.
  induction times as [| t pre IH] using rev_ind; intros Hs now Hnow;
    [ reflexivity | ].
  apply sorted_snoc in Hs. destruct Hs as [Hpre Ht].
  apply Forall_app in Hnow. destruct Hnow as [Hpn Htn]. apply Forall_inv in Htn.
  rewrite window_after_app, accepted_app. simpl.
  pose proof (IH Hpre t Ht) as IHt.
  pose proof (IH Hpre now Hpn) as IHn.
  unfold window_step at 1 2. rewrite IHt.
  destruct (limit <=? len _); simpl.
  - rewrite app_nil_r. now apply filter_absorbs.
  - rewrite !List.filter_app. f_equal. now apply filter_absorbs.
Qed.

(** X5: from a fresh limiter, and when the clock readings of user [u]'s
    calls do not go back, a call of [u] is admitted exactly when fewer than
    [limit] of [u]'s earlier admitted calls lie in the 60 seconds before it;
    refused calls and other users' calls do not count. *)
Theorem accepted_iff_room (limit : Z) (u : Z) (pre : list (Q * Z)) (now : Q) :
  StronglySorted Qle (map fst (for_user u pre) ++ [now]) ->
  fst (is_allowed now u (snd (run pre (__init__ limit))))
  = (recent now (accepted_for u pre (__init__ limit)) <? limit).
Proof.
  intros Hs. apply sorted_snoc in Hs. destruct Hs as [Hpre Hnow].
  destruct (is_allowed_window now u (snd (run pre (__init__ limit)))) as (-> & _).
  destruct (run_window u pre (__init__ limit)) as (-> & ->).
  rewrite accepted_for_eq. simpl max_per_minute.
  change (getitem (_timestamps (__init__ limit)) u) with (@nil Q).
  unfold window_step, recent.
  rewrite (window_view limit _ Hpre now Hnow).
  rewrite Z.ltb_antisym. now destruct (limit <=? _).
Qed.

Lemma accepted_iff_room_witness :
  fst (is_allowed 70 7 (snd (run [(0%Q, 7); (5%Q, 3); (30%Q, 7)] (__init__ 2))))
  = (recent 70 (accepted_for 7 [(0%Q, 7); (5%Q, 3); (30%Q, 7)] (__init__ 2)) <? 2).
Proof.
  apply accepted_iff_room.
  repeat constructor; vm_compute; congruence.
Defined.

Lemma filter_len_le (f : Q -> bool) (l : list Q) : len (List.filter f l) <= len l.
Proof.
  unfold len. induction l as [| x l IH]; simpl; [ lia | ].
  destruct (f x); simpl; lia.
Qed.

Lemma window_step_bounded limit now w :
  len w <= Z.max 0 limit -> len (snd (window_step limit now w)) <= Z.max 0 limit.
Proof.
  intros Hw. unfold window_step.
  pose proof (filter_len_le (fun t => Qgtb t (now - 60)%Q) w) as Hk.
  set (kept := List.filter (fun t => Qgtb t (now - 60)%Q) w) in *.
  clearbody kept.
  destruct (limit <=? len kept) eqn:E; cbn [snd]; [ clear E; lia | ].
  apply Z.leb_gt in E. rewrite len_app.
  change (len [now]) with 1. lia.
Qed.

Lemma window_after_bounded limit times :
  forall w, len w <= Z.max 0 limit ->
            len (window_after limit times w) <= Z.max 0 limit.
Proof.
  induction times as [| t times IH]; intros w Hw; [ assumption | ].
  simpl. apply IH. now apply window_step_bounded.
Qed.

(** X6: starting from a fresh limiter, no user's list of timestamps ever
    holds more than [max(0, limit)] entries. *)
Theorem window_never_exceeds_limit (limit : Z) (calls : list (Q * Z)) (u : Z) :
  len (getitem (_timestamps (snd (run calls (__init__ limit)))) u) <= Z.max 0 limit.
Proof.
  destruct (run_window u calls (__init__ limit)) as (-> & _).
  apply window_after_bounded.
  change (getitem (_timestamps (__init__ limit)) u) with (@nil Q).
  change (len (@nil Q)) with 0. lia.
Qed.

(** X7: a limiter built with a limit of zero or less refuses every call. *)
Theorem nonpositive_limit_refuses_everyone (limit : Z) (calls : list (Q * Z))
        (now : Q) (u : Z) :
  limit <= 0 ->
  fst (is_allowed now u (snd (run calls (__init__ limit)))) = false.
Proof.
  intros Hle.
  destruct (is_allowed_window now u (snd (run calls (__init__ limit)))) as (-> & _).
  destruct (run_window u calls (__init__ limit)) as (_ & ->). simpl max_per_minute.
  unfold window_step.
  destruct (limit <=? len _) eqn:E; [ reflexivity | ].
  apply Z.leb_gt in E.
  match type of E with len ?k < _ => pose proof (len_nonneg k) end.
  lia.
Qed.

Lemma nonpositive_limit_refuses_everyone_witness :
  fst (is_allowed 3 7 (snd (run [(0%Q, 7); (1%Q, 3)] (__init__ 0)))) = false.
Proof.
  apply nonpositive_limit_refuses_everyone. lia.
Defined.

Lemma is_allowed_dom now u self :
  dom (_timestamps (snd (is_allowed now u self))) = {[u]} ∪ dom (_timestamps self).
Proof.
  unfold is_allowed. destruct (max_per_minute self <=? _); simpl;
    rewrite !dom_insert_L, ?(assoc_L (∪)), ?(idemp_L (∪)); reflexivity.
Qed.

(** X8: [is_allowed] never removes a key: after a run the users the
    limiter holds a list for are those it held before and every user that
    called, admitted or not. *)
Theorem users_are_never_forgotten (calls : list (Q * Z)) (self : RateLimiter.t) :
  dom (_timestamps (snd (run calls self)))
  = dom (_timestamps self) ∪ list_to_set (map snd calls).
Proof.
  revert self. induction calls as [| [now v] rest IH]; intros self.
  - simpl. now rewrite (right_id_L ∅ (∪)).
  - simpl run.
    destruct (is_allowed now v self) as [ok self1] eqn:E1.
    destruct (run rest self1) as [answers self2] eqn:E2.
    pose proof (IH self1) as IH1. rewrite E2 in IH1. simpl in IH1.
    pose proof (is_allowed_dom now v self) as Hd. rewrite E1 in Hd. simpl in Hd.
    simpl. rewrite IH1, Hd.
    rewrite (comm_L (∪) {[v]} (dom (_timestamps self))).
    now rewrite (assoc_L (∪)).
Qed.

End More.

(** ** Stripped values: the completion client and the settings *)

Lemma lstrip_fixed (c : char) (t : str) : isspace c = false -> lstrip (c :: t) = c :: t.
Proof. intros H. simpl. now rewrite H. Qed.

Lemma lstrip_suffix (s : str) : exists sp, all_space sp /\ s = sp ++ lstrip s.
Proof.
  induction s as [| c s (sp & Hsp & E)]; [ exists []; split; reflexivity | ].
  simpl. destruct (isspace c) eqn:Hc.
  - exists (c :: sp). split; [ apply all_space_cons; auto | ].
    simpl. now rewrite <- E.
  - exists []. split; reflexivity.
Qed.

(** What [strip] returns is empty, or begins and ends with characters that
    are not whitespace; stripping it again changes nothing. *)
Lemma strip_trimmed (s : str) : trimmed (strip s).
Proof.
  unfold trimmed, strip, rstrip.
  destruct (lstrip_head s) as [E | (c & t & E & Hc)].
  { rewrite E. simpl. split; [ reflexivity | ]. intros c [H | H]; discriminate. }
  rewrite E.
  destruct (lstrip_head (rev (c :: t))) as [E2 | (d & r & E2 & Hd)].
  { rewrite E2. simpl. split; [ reflexivity | ]. intros c' [H | H]; discriminate. }
  rewrite E2.
  destruct (lstrip_suffix (rev (c :: t))) as (sp & Hsp & Esp).
  rewrite E2 in Esp.
  assert (c :: t = rev r ++ d :: rev sp) as Ect.
  { apply (f_equal (@rev char)) in Esp. rewrite rev_involutive in Esp.
    rewrite Esp, rev_app_distr. simpl. now rewrite <- app_assoc. }
  assert (exists t', rev (d :: r) = c :: t') as (t' & Et').
  { simpl. destruct (rev r) as [| x xs] eqn:Er.
    - simpl in Ect. injection Ect as -> _. exists []. reflexivity.
    - simpl in Ect. injection Ect as -> _. exists (xs ++ [d]). reflexivity. }
  split.
  - rewrite Et', (lstrip_fixed c t' Hc), <- Et', rev_involutive.
    now rewrite (lstrip_fixed d r Hd).
  - intros x [H | H].
    + rewrite Et' in H. simpl in H. congruence.
    + simpl in H. rewrite last_snoc in H. congruence.
Qed.

Lemma completion_outcome_trimmed env v :
  completion_outcome env = Val v -> v <> [] /\ trimmed v.
Proof.
  assert (forall answer, attempt_result answer = Val v -> v <> [] /\ trimmed v) as Hone.
  { intros answer H. split; [ now apply (botFacts.attempt_result_value answer) | ].
    destruct answer as [[c |] | e]; simpl in H; try discriminate.
    destruct (negb (truthy c) || negb (truthy (strip c))); [ discriminate | ].
    injection H as <-. apply strip_trimmed. }
  unfold completion_outcome.
  destruct (attempt_result (bot.env_completion env 0)) eqn:E0; [ intros [= ->]; eauto | ].
  destruct (attempt_result (bot.env_completion env 1)) eqn:E1; [ intros [= ->]; eauto | ].
  eauto.
Qed.

(** X9: what [call_deepseek] returns is not empty and is already stripped:
    stripping it again changes nothing, and its first and last characters
    are not whitespace. *)
Theorem call_deepseek_returns_trimmed system_prompt user_message env w v :
  fst (bot.call_deepseek system_prompt user_message env w) = Val v ->
  v <> [] /\ trimmed v.
Proof.
  rewrite botFacts.call_deepseek_eq. simpl. apply completion_outcome_trimmed.
Qed.

Section Environment.
Import environment.
Variable path : str.
Variable getenv : str -> option str.

Lemma _require_env_value name v :
  _require_env path getenv name = Val v
  <-> exists value, getenv name = Some value /\ ~ all_space value /\ v = strip value.
Proof.
  unfold _require_env. destruct (getenv name) as [value |].
  - destruct (negb (truthy value) || negb (truthy (strip value))) eqn:Eb.
    + apply blank_test in Eb. split; [ discriminate | ].
      intros (value' & [= <-] & Hns & _). contradiction.
    + split.
      * intros [= <-]. exists value. repeat split; auto.
        intros Hsp. apply blank_test in Hsp. congruence.
      * intros (value' & [= <-] & _ & ->). reflexivity.
  - split; [ discriminate | ]. intros (value & [=] & _).
Qed.

Lemma _require_env_error name e :
  _require_env path getenv name = Exc e
  <-> blank (getenv name) /\ e = not_set path name.
Proof.
  unfold _require_env, blank. destruct (getenv name) as [value |].
  - destruct (negb (truthy value) || negb (truthy (strip value))) eqn:Eb.
    + apply blank_test in Eb. split; [ intros [= <-]; auto | intros (_ & ->); auto ].
    + split; [ discriminate | ]. intros (Hsp & _). apply blank_test in Hsp. congruence.
  - split; [ intros [= <-]; auto | intros (_ & ->); auto ].
Qed.

(** X22: the two settings read at import.  Both are obtained exactly when
    both variables are set to something that is not whitespace only, and
    then they are the stripped values, not empty and with no whitespace at
    either end; otherwise the import raises [RuntimeError] naming the bot
    token when that is missing or blank, and the API key only when the token
    is fine. *)
Theorem settings_are_present_and_trimmed :
  (forall token key,
      required_settings path getenv = Val (token, key) <->
      exists t k,
        getenv (of_ascii "TELEGRAM_BOT_TOKEN") = Some t /\ ~ all_space t
        /\ getenv (of_ascii "DEEPSEEK_API_KEY") = Some k /\ ~ all_space k
        /\ token = strip t /\ key = strip k)
  /\ (forall token key,
         required_settings path getenv = Val (token, key) ->
         token <> [] /\ trimmed token /\ key <> [] /\ trimmed key)
  /\ (forall e,
         required_settings path getenv = Exc e <->
         (blank (getenv (of_ascii "TELEGRAM_BOT_TOKEN"))
          /\ e = not_set path (of_ascii "TELEGRAM_BOT_TOKEN"))
         \/ (~ blank (getenv (of_ascii "TELEGRAM_BOT_TOKEN"))
             /\ blank (getenv (of_ascii "DEEPSEEK_API_KEY"))
             /\ e = not_set path (of_ascii "DEEPSEEK_API_KEY"))).
Proof.
  assert (forall token key,
             required_settings path getenv = Val (token, key) <->
             _require_env path getenv (of_ascii "TELEGRAM_BOT_TOKEN") = Val token
             /\ _require_env path getenv (of_ascii "DEEPSEEK_API_KEY") = Val key) as Hboth.
  { intros token key. unfold required_settings.
    destruct (_require_env path getenv (of_ascii "TELEGRAM_BOT_TOKEN")) as [t | e];
      [ | split; [ discriminate | intros [[=] _] ] ].
    destruct (_require_env path getenv (of_ascii "DEEPSEEK_API_KEY")) as [k | e];
      [ | split; [ discriminate | intros [_ [=]] ] ].
    split; [ intros [= <- <-]; auto | intros [[= <-] [= <-]]; reflexivity ]. }
  split; [ | split ].
  - intros token key. rewrite Hboth, !_require_env_value. split.
    + intros ((t & Ht & Hnt & ->) & (k & Hk & Hnk & ->)). exists t, k. auto 10.
    + intros (t & k & Ht & Hnt & Hk & Hnk & -> & ->). split; eauto.
  - intros token key H. apply Hboth in H. destruct H as [Ht Hk].
    apply _require_env_value in Ht, Hk.
    destruct Ht as (t & _ & Hnt & ->). destruct Hk as (k & _ & Hnk & ->).
    repeat split; try apply strip_trimmed.
    + intros E. apply strip_nil_iff in E. contradiction.
    + intros E. apply strip_nil_iff in E. contradiction.
  - intros e. unfold required_settings.
    destruct (_require_env path getenv (of_ascii "TELEGRAM_BOT_TOKEN")) as [t | e1] eqn:E1.
    + apply _require_env_value in E1. destruct E1 as (tv & Ht & Hnt & _).
      assert (~ blank (getenv (of_ascii "TELEGRAM_BOT_TOKEN"))) as Hnb
          by (rewrite Ht; exact Hnt).
      destruct (_require_env path getenv (of_ascii "DEEPSEEK_API_KEY")) as [k | e2] eqn:E2.
      * split; [ discriminate | ].
        apply _require_env_value in E2. destruct E2 as (kv & Hk & Hnk & _).
        intros [(Hb & _) | (_ & Hb & _)]; [ contradiction | ].
        rewrite Hk in Hb. contradiction.
      * apply _require_env_error in E2. destruct E2 as (Hb & ->).
        split; [ intros [= <-]; right; auto | ].
        intros [(Hb' & _) | (_ & _ & ->)]; [ contradiction | reflexivity ].
    + apply _require_env_error in E1. destruct E1 as (Hb & ->).
      split; [ intros [= <-]; left; auto | ].
      intros [(_ & ->) | (Hnb & _)]; [ reflexivity | contradiction ].
Qed.

End Environment.

(** ** The gate in front of the completion client *)

Section Gate.
Import config bot botFacts wpRules handlerFacts.

Lemma Category_of_value_error (v : str) (e : exn) :
  Category_of_value v = Exc e -> exists msg, e = ValueError msg.
Proof.
  unfold Category_of_value.
  repeat match goal with |- context [if ?b then _ else _] => destruct b end;
    try discriminate.
  intros [= <-]. eauto.
Qed.

Lemma completion_world_rate_limiter request env w :
  rate_limiter (completion_world request env w) = rate_limiter w.
Proof. apply completion_world_frame. Qed.

Ltac gate_simpl :=
  repeat
    (cbn [user_data rate_limiter telegram_log completion_log sleep_log
          log_telegram log_completion log_sleep with_user_data
          with_rate_limiter] in *;
     repeat match goal with
            | H : user_data ?w1 = _ |- _ => rewrite H in *; clear H
            | H : completion_log ?w1 = _ |- _ => rewrite H in *; clear H
            | H : rate_limiter ?w1 = _ |- _ => rewrite H in *; clear H
            end;
     rewrite ?completion_world_user_data, ?completion_world_rate_limiter in * ).

Ltac state_only s :=
  let x := fresh in let E := fresh in
  intros x E; first [ discriminate E | injection E as <-; reflexivity ].

Lemma negb_truthy_true {A} (l : list A) : negb (truthy l) = true -> l = [].
Proof. rewrite negb_true_iff. apply truthy_false_iff. Qed.

Lemma negb_truthy_false {A} (l : list A) : negb (truthy l) = false -> l <> [].
Proof. rewrite negb_false_iff. apply truthy_true_iff. Qed.

Lemma Category_of_value_nil :
  Category_of_value [] = Exc (ValueError ([] ++ of_ascii " is not a valid Category")).
Proof. reflexivity. Qed.

Ltac gate_facts :=
  repeat match goal with
         | H : negb (truthy _) = true |- _ => apply negb_truthy_true in H
         | H : negb (truthy _) = false |- _ => apply negb_truthy_false in H
         | H : negb _ = true |- _ => apply negb_true_iff in H
         | H : negb _ = false |- _ => apply negb_false_iff in H
         end;
  try (match goal with
       | H : Category_of_value _ = Exc ?e |- _ =>
           destruct (Category_of_value_error _ _ H) as [? ?]; try discriminate
       end);
  subst;
  unfold stored_category, stored_prompt;
  repeat match goal with
         | H : ud_category _ = _ |- _ => rewrite H
         | H : ud_last_prompt _ = _ |- _ => rewrite H
         | H : Category_of_value _ = _ |- _ => rewrite H
         end;
  rewrite ?Category_of_value_nil;
  cbn [truthy].

Ltac gate_branch st :=
  repeat (split; [ solve [ reflexivity | assumption ] | ]);
  split; [ state_only st | delivered ].

Ltac gate_requests :=
  match goal with
  | |- context [completion_log (completion_world ?req ?env ?W)] =>
      let n := fresh "n" in
      let Hn := fresh "Hn" in
      let E := fresh "E" in
      destruct (completion_world_requests req env W) as (n & Hn & E);
      rewrite E; right; exists n; split; [ exact Hn | reflexivity ]
  end.

Lemma handle_description_gate lower update env w :
  wp (handle_description lower update) env w
     (gate_outcome
        (match stored_category (user_data w) with Some _ => true | None => false end)
        (match stored_category (user_data w) with
         | Some c => (SYSTEM_PROMPTS c, stripped_text update)
         | None => (REFINEMENT_SYSTEM_PROMPT, [])
         end)
        AWAITING_DESCRIPTION MAIN_MENU update env w).
Proof.
  unfold handle_description.
  repeat wp_step.
  all: unfold gate_outcome.
  all: gate_simpl.
  all: gate_facts.
  all: try solve [ left; gate_branch MAIN_MENU ].
  all: right.
  all: try solve [ left; gate_branch AWAITING_DESCRIPTION ].
  all: right.
  all: try solve [ left; gate_branch AWAITING_DESCRIPTION ].
  all: right.
  all: (split; [ reflexivity | ]).
  all: (split; [ assumption | ]).
  all: (split; [ assumption | ]).
  all: (split; [ reflexivity | ]).
  all: try solve [ gate_requests ].
  all: left; (split; [ reflexivity | split; [ reflexivity | ] ]).
  all: intros Hd; match goal with
                  | H : env_telegram _ _ _ = Some _ |- _ =>
                      rewrite Hd in H by reflexivity; discriminate H
                  end.
Qed.

Lemma handle_refinement_gate lower update env w :
  wp (handle_refinement lower update) env w
     (gate_outcome
        (match stored_prompt (user_data w) with Some _ => true | None => false end)
        (REFINEMENT_SYSTEM_PROMPT,
         refinement_message (default [] (stored_prompt (user_data w)))
                            (stripped_text update))
        AWAITING_REFINEMENT MAIN_MENU update env w).
Proof.
  unfold handle_refinement.
  repeat wp_step.
  all: unfold gate_outcome.
  all: gate_simpl.
  all: gate_facts.
  all: repeat match goal with
              | H : ?p <> [] |- context [truthy ?p] =>
                  let E := fresh in
                  pose proof H as E; apply truthy_true_iff in E; rewrite E; clear E
              end.
  all: cbn [default].
  all: try solve [ left; gate_branch MAIN_MENU ].
  all: right.
  all: try solve [ left; gate_branch AWAITING_REFINEMENT ].
  all: right.
  all: try solve [ left; gate_branch AWAITING_REFINEMENT ].
  all: right.
  all: (split; [ reflexivity | ]).
  all: (split; [ assumption | ]).
  all: (split; [ assumption | ]).
  all: (split; [ reflexivity | ]).
  all: try solve [ gate_requests ].
  all: left; (split; [ reflexivity | split; [ reflexivity | ] ]).
  all: intros Hd; match goal with
                  | H : env_telegram _ _ _ = Some _ |- _ =>
                      rewrite Hd in H by reflexivity; discriminate H
                  end.
Qed.

(** X10: a handler sends requests to the completion client only after the
    rate limiter admitted the call and recorded it, for a text that is not
    blank; the requests are one to three copies of the same request, made of
    the stored category's system prompt and the stripped text for a
    description, and of the refinement system prompt and the stored prompt
    with the stripped text for a refinement. *)
Theorem requests_need_admission lower update env w :
  let asked := RateLimiter.is_allowed (env_now env) (user_id_of update)
                                      (rate_limiter w) in
  (completion_log (snd (handle_description lower update env w)) <> completion_log w ->
   fst asked = true
   /\ rate_limiter (snd (handle_description lower update env w)) = snd asked
   /\ stripped_text update <> []
   /\ exists c (n : nat),
       stored_category (user_data w) = Some c
       /\ (1 <= n <= 3)%nat
       /\ completion_log (snd (handle_description lower update env w))
          = completion_log w ++ repeat (SYSTEM_PROMPTS c, stripped_text update) n)
  /\ (completion_log (snd (handle_refinement lower update env w)) <> completion_log w ->
      fst asked = true
      /\ rate_limiter (snd (handle_refinement lower update env w)) = snd asked
      /\ stripped_text update <> []
      /\ exists p (n : nat),
          stored_prompt (user_data w) = Some p
          /\ (1 <= n <= 3)%nat
          /\ completion_log (snd (handle_refinement lower update env w))
             = completion_log w
               ++ repeat (REFINEMENT_SYSTEM_PROMPT,
                          refinement_message p (stripped_text update)) n).
Proof.
  intros asked. split; intros Hcalled.
  - pose proof (handle_description_gate lower update env w) as Hg.
    unfold wp, gate_outcome in Hg. fold asked in Hg.
    destruct Hg as [(_ & _ & E & _) | [(_ & _ & _ & E & _)
                   | [(_ & _ & _ & _ & E & _) | (Hready & Htext & Hok & Hrl & Hreq)]]];
      try contradiction.
    destruct Hreq as [(E & _) | (n & Hn & E)]; [ contradiction | ].
    repeat split; try assumption.
    destruct (stored_category (user_data w)) as [c |]; [ | discriminate ].
    exists c, n. auto.
  - pose proof (handle_refinement_gate lower update env w) as Hg.
    unfold wp, gate_outcome in Hg. fold asked in Hg.
    destruct Hg as [(_ & _ & E & _) | [(_ & _ & _ & E & _)
                   | [(_ & _ & _ & _ & E & _) | (Hready & Htext & Hok & Hrl & Hreq)]]];
      try contradiction.
    destruct Hreq as [(E & _) | (n & Hn & E)]; [ contradiction | ].
    repeat split; try assumption.
    destruct (stored_prompt (user_data w)) as [p |]; [ | discriminate ].
    exists p, n. auto.
Qed.

(** X11: a message whose text is blank after stripping is not counted by
    the rate limiter, reaches the completion client in no case and changes
    no user data; with something to work on and a platform that delivers,
    the handler stays in its waiting state. *)
Theorem blank_text_costs_nothing lower update env w :
  stripped_text update = [] ->
  (rate_limiter (snd (handle_description lower update env w)) = rate_limiter w
   /\ completion_log (snd (handle_description lower update env w)) = completion_log w
   /\ user_data (snd (handle_description lower update env w)) = user_data w
   /\ (forall c, stored_category (user_data w) = Some c -> delivers env ->
                 fst (handle_description lower update env w)
                 = Val AWAITING_DESCRIPTION))
  /\ (rate_limiter (snd (handle_refinement lower update env w)) = rate_limiter w
      /\ completion_log (snd (handle_refinement lower update env w)) = completion_log w
      /\ user_data (snd (handle_refinement lower update env w)) = user_data w
      /\ (forall p, stored_prompt (user_data w) = Some p -> delivers env ->
                    fst (handle_refinement lower update env w)
                    = Val AWAITING_REFINEMENT)).
Proof.
  intros Hblank. split.
  - pose proof (handle_description_gate lower update env w) as Hg.
    unfold wp, gate_outcome in Hg.
    destruct Hg as [(Hready & Hrl & Hlog & Hud & _)
                   | [(Hready & _ & Hrl & Hlog & Hud & _ & Hst)
                   | [(_ & Htext & _) | (_ & Htext & _)]]];
      try contradiction.
    + repeat split; try assumption.
      intros c Hc. rewrite Hc in Hready. discriminate.
    + repeat split; try assumption. auto.
  - pose proof (handle_refinement_gate lower update env w) as Hg.
    unfold wp, gate_outcome in Hg.
    destruct Hg as [(Hready & Hrl & Hlog & Hud & _)
                   | [(Hready & _ & Hrl & Hlog & Hud & _ & Hst)
                   | [(_ & Htext & _) | (_ & Htext & _)]]];
      try contradiction.
    + repeat split; try assumption.
      intros c Hc. rewrite Hc in Hready. discriminate.
    + repeat split; try assumption. auto.
Qed.

(** X12: when the rate limiter refuses, the handler only purges the
    user's window (the refused attempt is not recorded), sends nothing to
    the completion client, leaves the user data alone and stays in its
    waiting state. *)
Theorem refused_call_is_dropped lower update env w :
  let asked := RateLimiter.is_allowed (env_now env) (user_id_of update)
                                      (rate_limiter w) in
  stripped_text update <> [] ->
  fst asked = false ->
  (forall c,
      stored_category (user_data w) = Some c ->
      rate_limiter (snd (handle_description lower update env w)) = snd asked
      /\ completion_log (snd (handle_description lower update env w)) = completion_log w
      /\ user_data (snd (handle_description lower update env w)) = user_data w
      /\ (forall s, fst (handle_description lower update env w) = Val s ->
                    s = AWAITING_DESCRIPTION)
      /\ (delivers env ->
          fst (handle_description lower update env w) = Val AWAITING_DESCRIPTION))
  /\ (forall p,
         stored_prompt (user_data w) = Some p ->
         rate_limiter (snd (handle_refinement lower update env w)) = snd asked
         /\ completion_log (snd (handle_refinement lower update env w)) = completion_log w
         /\ user_data (snd (handle_refinement lower update env w)) = user_data w
         /\ (forall s, fst (handle_refinement lower update env w) = Val s ->
                       s = AWAITING_REFINEMENT)
         /\ (delivers env ->
             fst (handle_refinement lower update env w) = Val AWAITING_REFINEMENT)).
Proof.
  intros asked Htext Hrefused. split.
  - intros c Hc.
    pose proof (handle_description_gate lower update env w) as Hg.
    unfold wp, gate_outcome in Hg. fold asked in Hg. rewrite Hc in Hg.
    destruct Hg as [(Hready & _) | [(_ & Hblank & _)
                   | [(_ & _ & _ & Hrl & Hlog & Hud & Hst & Hdel)
                     | (_ & _ & Hok & _)]]];
      try discriminate; try contradiction; try congruence.
    auto.
  - intros p Hp.
    pose proof (handle_refinement_gate lower update env w) as Hg.
    unfold wp, gate_outcome in Hg. fold asked in Hg. rewrite Hp in Hg.
    destruct Hg as [(Hready & _) | [(_ & Hblank & _)
                   | [(_ & _ & _ & Hrl & Hlog & Hud & Hst & Hdel)
                     | (_ & _ & Hok & _)]]];
      try discriminate; try contradiction; try congruence.
    auto.
Qed.

End Gate.

(** ** The log of platform calls *)

Section Logs.
Import config bot botFacts wpRules handlerFacts.

Lemma wp_for_each_log env (chunks : list str) :
  forall w,
    wp (for_each chunks (fun chunk => telegram (reply_text (Generated chunk) None false)))
       env w
       (fun r w1 =>
          exists sent rest,
            chunks = sent ++ rest
            /\ telegram_log w1 = telegram_log w ++ map generated_reply sent
            /\ same_but_logs w w1
            /\ completion_log w1 = completion_log w
            /\ (delivers env -> r = Val tt /\ rest = [])).
Proof.
  induction chunks as [| chunk more IH]; intros w.
  - apply wp_ret. exists [], []. unfold same_but_logs. simpl.
    rewrite app_nil_r. repeat split; auto.
  - simpl for_each. apply wp_bind, wp_telegram.
    destruct (env_telegram env _ _) eqn:E.
    + exists [chunk], more. unfold same_but_logs. simpl.
      split; [ reflexivity | split; [ reflexivity | ] ].
      split; [ split; reflexivity | split; [ reflexivity | ] ].
      intros Hd. rewrite Hd in E by reflexivity. discriminate.
    + eapply wp_conseq; [ apply IH | ].
      simpl. unfold same_but_logs. simpl.
      intros r w1 (sent & rest & -> & Hlog & (Hud & Hrl) & Hc & Hr).
      exists (chunk :: sent), rest. simpl. rewrite Hlog, <- app_assoc.
      split; [ reflexivity | split; [ reflexivity | ] ].
      split; [ split; assumption | split; assumption ].
Qed.

Lemma wp_send_result_log env w result Q :
  (forall r w1 sent rest,
      result_messages result = sent ++ rest ->
      telegram_log w1 = telegram_log w ++ map generated_reply sent ->
      same_but_logs w w1 -> completion_log w1 = completion_log w ->
      (delivers env -> r = Val tt /\ rest = []) -> Q r w1) ->
  wp (send_result result) env w Q.
Proof.
  intros HQ. unfold send_result, result_messages in *.
  destruct (len result <=? MAX_MESSAGE_LENGTH).
  - apply wp_telegram.
    destruct (env_telegram env _ _) eqn:E.
    + apply (HQ _ _ [result] []); unfold same_but_logs; simpl; auto.
      intros Hd. rewrite Hd in E by reflexivity. discriminate.
    + apply (HQ _ _ [result] []); unfold same_but_logs; simpl; auto.
  - destruct (split_into_chunks_bounded MAX_MESSAGE_LENGTH ltac:(reflexivity) result)
      as (chunks & E & _).
    rewrite E in *.
    eapply wp_conseq; [ apply wp_for_each_log | ].
    simpl. intros r w1 (sent & rest & Hsplit & Hlog & Hs & Hc & Hr).
    eapply HQ; eassumption.
Qed.

Lemma completion_outcome_value env v :
  completion_outcome env = Val v -> v <> [] /\ ~ all_space v.
Proof.
  unfold completion_outcome.
  destruct (attempt_result (env_completion env 0)) eqn:E0.
  { intros [= <-]. eapply attempt_result_value; eassumption. }
  destruct (attempt_result (env_completion env 1)) eqn:E1.
  { intros [= <-]. eapply attempt_result_value; eassumption. }
  intros E2. eapply attempt_result_value; eassumption.
Qed.

Lemma result_messages_fit (result : str) :
  result <> [] ->
  Forall (fun s => s <> [] /\ len s <= MAX_MESSAGE_LENGTH) (result_messages result).
Proof.
  intros Hne. unfold result_messages.
  destruct (len result <=? MAX_MESSAGE_LENGTH) eqn:E.
  - apply Z.leb_le in E. constructor; [ auto | constructor ].
  - destruct (split_into_chunks result MAX_MESSAGE_LENGTH) as [chunks |] eqn:Es;
      [ | constructor ].
    exact (chunks_fit result MAX_MESSAGE_LENGTH chunks ltac:(reflexivity) Es).
Qed.

Lemma sent_sendable env result sent rest :
  completion_outcome env = Val result ->
  result_messages result = sent ++ rest ->
  Forall sendable (map generated_reply sent).
Proof.
  intros Hres Hsplit.
  destruct (completion_outcome_value env result Hres) as [Hne _].
  pose proof (result_messages_fit result Hne) as Hfit.
  rewrite Hsplit in Hfit. apply Forall_app in Hfit. destruct Hfit as [Hsent _].
  clear Hsplit. induction Hsent; simpl; constructor; auto.
Qed.

Lemma error_text_fits lower e : text_fits (error_text lower e).
Proof.
  unfold error_text.
  repeat match goal with |- context [if ?b then _ else _] => destruct b end;
    exact I.
Qed.

Lemma completion_world_telegram_log request env w :
  telegram_log (completion_world request env w) = telegram_log w.
Proof. apply completion_world_frame. Qed.

Ltac wp_step_log :=
  lazymatch goal with
  | |- wp (send_result _) _ _ _ =>
      apply wp_send_result_log; intros ? ? ? ? ? ? [? ?] ? ?
  | _ => wp_step
  end.

Ltac log_simpl :=
  repeat
    (cbn [user_data rate_limiter telegram_log completion_log sleep_log
          log_telegram log_completion log_sleep with_user_data
          with_rate_limiter] in *;
     repeat match goal with
            | H : telegram_log ?w1 = _ |- _ => rewrite H in *; clear H
            end;
     rewrite ?completion_world_telegram_log in * ).

Ltac sendable_leaf :=
  unfold adds_sendable; log_simpl; rewrite <- ?app_assoc;
  eexists; split; [ first [ reflexivity | symmetry; apply app_nil_r ] | ];
  repeat lazymatch goal with
         | |- Forall _ [] => constructor
         | |- Forall _ (_ :: _) => constructor
         | |- Forall _ (_ ++ _) => apply Forall_app; split
         | |- Forall _ (map generated_reply _) => eapply sent_sendable; eassumption
         | |- sendable _ => first [ exact I | apply error_text_fits ]
         end.

Lemma handle_description_sendable lower update env w :
  wp (handle_description lower update) env w (fun _ w' => adds_sendable w w').
Proof.
  unfold handle_description.
  repeat wp_step_log.
  all: sendable_leaf.
Qed.

Lemma handle_refinement_sendable lower update env w :
  wp (handle_refinement lower update) env w (fun _ w' => adds_sendable w w').
Proof.
  unfold handle_refinement.
  repeat wp_step_log.
  all: sendable_leaf.
Qed.

(** X13: whatever happens, the calls the two text handlers add to the log
    of platform calls carry texts the platform accepts: every piece of
    generated text sent is non-empty and at most [MAX_MESSAGE_LENGTH]
    characters long. *)
Theorem every_message_fits lower update env w :
  adds_sendable w (snd (handle_description lower update env w))
  /\ adds_sendable w (snd (handle_refinement lower update env w)).
Proof.
  split.
  - apply (handle_description_sendable lower update env w).
  - apply (handle_refinement_sendable lower update env w).
Qed.

Lemma stored_category_inv ud c :
  stored_category ud = Some c ->
  exists cv, ud_category ud = Some cv /\ truthy cv = true
             /\ Category_of_value cv = Val c.
Proof.
  unfold stored_category. destruct (ud_category ud) as [cv |]; [ | discriminate ].
  destruct (Category_of_value cv) as [c' |] eqn:E; [ | discriminate ].
  intros [= ->]. exists cv. repeat split; auto.
  destruct cv; [ vm_compute in E; discriminate | reflexivity ].
Qed.

Lemma stored_prompt_inv ud p :
  stored_prompt ud = Some p -> ud_last_prompt ud = Some p /\ truthy p = true.
Proof.
  unfold stored_prompt. destruct (ud_last_prompt ud) as [q |]; [ | discriminate ].
  destruct (truthy q) eqn:E; [ | discriminate ]. intros [= ->]. auto.
Qed.

Ltac platform_let_down Hd Hb :=
  exfalso;
  first
    [ match goal with
      | H : env_telegram _ _ _ = Some _ |- _ =>
          rewrite Hd in H by reflexivity; discriminate H
      end
    | match goal with
      | H : env_telegram _ ?k status_delete = Some _ |- _ =>
          destruct (Hb k) as [E | [? E]]; rewrite E in H; discriminate H
      end
    | match goal with
      | H : delivers _ -> Exc _ = Val tt /\ _ |- _ =>
          destruct (H Hd) as [E _]; discriminate E
      end ].

Ltac all_sent Hd :=
  repeat match goal with
         | H : delivers _ -> Val _ = Val tt /\ ?rest = [],
           Hs : result_messages _ = ?sent ++ ?rest |- _ =>
             destruct (H Hd) as [_ ->]; clear H; rewrite app_nil_r in Hs; subst sent
         end.

Ltac edit_outcome :=
  repeat match goal with
         | H : env_telegram _ (length (_ ++ [_])) (status_edit_text _) = _ |- _ =>
             rewrite length_app, Nat.add_1_r in H; cbn [length] in H
         end;
  repeat match goal with
         | H : env_telegram _ (S _) (status_edit_text _) = _ |- _ => rewrite H; clear H
         end.

Ltac trace_leaf Hd Hb :=
  first
    [ platform_let_down Hd Hb
    | log_simpl; all_sent Hd; edit_outcome; rewrite <- ?app_assoc; reflexivity ].

(** X14: the platform calls of an admitted description, in order, when the
    platform delivers replies and deleting the status message is benign:
    the status notice; then, on success, the deletion of the notice, the
    header, the result in one message or in its chunks and the
    approve-or-refine menu; on failure the error text edited into the notice
    (sent as a reply if the edit fails) and the category menu. *)
Theorem description_dialogue lower update env w c :
  stored_category (user_data w) = Some c ->
  stripped_text update <> [] ->
  fst (RateLimiter.is_allowed (env_now env) (user_id_of update) (rate_limiter w))
  = true ->
  delivers env -> delete_is_benign env ->
  telegram_log (snd (handle_description lower update env w))
  = telegram_log w
    ++ reply_text MSG_SENDING None true
       :: match completion_outcome env with
          | Val result =>
              [status_delete; reply_text MSG_HERE_PROMPT None true]
              ++ map generated_reply (result_messages result)
              ++ [reply_text MSG_APPROVE_OR_REFINE (Some approve_refine_keyboard) true]
          | Exc e =>
              status_edit_text (error_text lower e)
              :: match env_telegram env (S (length (telegram_log w)))
                                    (status_edit_text (error_text lower e)) with
                 | None => []
                 | Some _ => [reply_text (error_text lower e) None true]
                 end
              ++ [reply_text MSG_CHOOSE_CATEGORY (Some category_keyboard) true]
          end.
Proof.
  intros Hc Htext Hadmit Hd Hb.
  destruct (stored_category_inv _ _ Hc) as (cv & Hcat & Hcv & Hval).
  apply truthy_true_iff in Htext.
  change (wp (handle_description lower update) env w
             (fun _ w' =>
                telegram_log w'
                = telegram_log w
                  ++ reply_text MSG_SENDING None true
                     :: match completion_outcome env with
                        | Val result =>
                            [status_delete; reply_text MSG_HERE_PROMPT None true]
                            ++ map generated_reply (result_messages result)
                            ++ [reply_text MSG_APPROVE_OR_REFINE
                                           (Some approve_refine_keyboard) true]
                        | Exc e =>
                            status_edit_text (error_text lower e)
                            :: match env_telegram env (S (length (telegram_log w)))
                                       (status_edit_text (error_text lower e)) with
                               | None => []
                               | Some _ => [reply_text (error_text lower e) None true]
                               end
                            ++ [reply_text MSG_CHOOSE_CATEGORY
                                           (Some category_keyboard) true]
                        end)).
  unfold handle_description.
  apply wp_bind, wp_get_user_data. rewrite Hcat, Hcv, Hval, Htext. simpl negb.
  cbv iota.
  apply wp_bind, wp_rate_limiter_is_allowed. rewrite Hadmit. simpl negb. cbv iota.
  apply wp_bind, wp_telegram. rewrite Hd by reflexivity.
  apply wp_try_except, wp_bind, wp_call_deepseek.
  destruct (completion_outcome env) as [result | e] eqn:Hres.
  - repeat wp_step_log.
    all: trace_leaf Hd Hb.
  - repeat wp_step_log.
    all: trace_leaf Hd Hb.
Qed.

(** X15: the platform calls of an admitted refinement, in order, under the
    same conditions: as for a description, except that both the success and
    the failure path end with the approve-or-refine menu. *)
Theorem refinement_dialogue lower update env w p :
  stored_prompt (user_data w) = Some p ->
  stripped_text update <> [] ->
  fst (RateLimiter.is_allowed (env_now env) (user_id_of update) (rate_limiter w))
  = true ->
  delivers env -> delete_is_benign env ->
  telegram_log (snd (handle_refinement lower update env w))
  = telegram_log w
    ++ reply_text MSG_SENDING None true
       :: match completion_outcome env with
          | Val result =>
              [status_delete; reply_text MSG_HERE_PROMPT None true]
              ++ map generated_reply (result_messages result)
          | Exc e =>
              status_edit_text (error_text lower e)
              :: match env_telegram env (S (length (telegram_log w)))
                                    (status_edit_text (error_text lower e)) with
                 | None => []
                 | Some _ => [reply_text (error_text lower e) None true]
                 end
          end
       ++ [reply_text MSG_APPROVE_OR_REFINE (Some approve_refine_keyboard) true].
Proof.
  intros Hp Htext Hadmit Hd Hb.
  destruct (stored_prompt_inv _ _ Hp) as (Hlast & Htruthy).
  apply truthy_true_iff in Htext.
  change (wp (handle_refinement lower update) env w
             (fun _ w' =>
                telegram_log w'
                = telegram_log w
                  ++ reply_text MSG_SENDING None true
                     :: match completion_outcome env with
                        | Val result =>
                            [status_delete; reply_text MSG_HERE_PROMPT None true]
                            ++ map generated_reply (result_messages result)
                        | Exc e =>
                            status_edit_text (error_text lower e)
                            :: match env_telegram env (S (length (telegram_log w)))
                                       (status_edit_text (error_text lower e)) with
                               | None => []
                               | Some _ => [reply_text (error_text lower e) None true]
                               end
                        end
                     ++ [reply_text MSG_APPROVE_OR_REFINE
                                    (Some approve_refine_keyboard) true])).
  unfold handle_refinement.
  apply wp_bind, wp_get_user_data. rewrite Hlast, Htruthy, Htext. simpl negb.
  cbv iota.
  apply wp_bind, wp_rate_limiter_is_allowed. rewrite Hadmit. simpl negb. cbv iota.
  apply wp_bind, wp_telegram. rewrite Hd by reflexivity.
  apply wp_try_except, wp_bind, wp_call_deepseek.
  destruct (completion_outcome env) as [result | e] eqn:Hres.
  - repeat wp_step_log.
    all: trace_leaf Hd Hb.
  - repeat wp_step_log.
    all: trace_leaf Hd Hb.
Qed.

End Logs.

(** ** Menus and category picks *)

Section Navigation.
Import config bot botFacts wpRules handlerFacts navigation.

Lemma Category_of_value_value (c : Category) :
  Category_of_value (Category_value c) = Val c.
Proof. destruct c; reflexivity. Qed.

Lemma Category_of_value_inv (v : str) (c : Category) :
  Category_of_value v = Val c -> v = Category_value c.
Proof.
  unfold Category_of_value, str_eqb.
  repeat case_bool_decide; intros [= <-]; assumption.
Qed.

Lemma stored_category_set (c : Category) (ud : UserData) :
  stored_category (set_category (Category_value c) ud) = Some c.
Proof. unfold stored_category. simpl. now rewrite Category_of_value_value. Qed.

Ltac nav_step :=
  lazymatch goal with
  | |- wp (if ?b then _ else _) _ _ _ => destruct b eqn:?
  | _ => wp_step
  end.

Ltac nav_leaf :=
  unfold navigation_outcome, menu_calls;
  repeat match goal with
         | H : callback_query _ = _ |- _ => rewrite H
         | H : callback_chat_id _ = _ |- _ => rewrite H
         | H : (_ =? 0) = _ |- _ => rewrite H
         end;
  cbn [user_data rate_limiter telegram_log completion_log sleep_log log_telegram];
  rewrite <- ?app_assoc; cbn [app];
  repeat (split; [ reflexivity | ]);
  split;
  [ eexists; split;
    [ first [ reflexivity | symmetry; apply app_nil_r ]
    | first [ reflexivity | apply prefix_nil
            | apply (prefix_app_r [_] [] [_]), prefix_nil
            | apply prefix_cons, prefix_nil ] ]
  | split;
    [ intros ? E; first [ discriminate E
                        | injection E as <-; split; [ reflexivity | ];
                          rewrite ?app_nil_r; reflexivity ]
    | delivered ] ].

Lemma back_callback_outcome update env w :
  wp (back_callback update) env w
     (navigation_outcome MSG_CHOOSE_CATEGORY category_keyboard MAIN_MENU update env w).
Proof.
  unfold back_callback.
  repeat nav_step.
  all: nav_leaf.
Qed.

Lemma approve_callback_outcome update env w :
  wp (approve_callback update) env w
     (navigation_outcome MSG_CHOOSE_CATEGORY category_keyboard MAIN_MENU update env w).
Proof.
  unfold approve_callback.
  repeat nav_step.
  all: nav_leaf.
Qed.

Lemma refine_callback_outcome update env w :
  wp (refine_callback update) env w
     (navigation_outcome MSG_SEND_REFINEMENT awaiting_keyboard AWAITING_REFINEMENT
                         update env w).
Proof.
  unfold refine_callback.
  repeat nav_step.
  all: nav_leaf.
Qed.

(** X19: the back, approve and refine callbacks change nothing but the log
    of platform calls: they answer the query when there is one, write one
    menu message to the chat when they know a non-zero chat id, and return
    [MAIN_MENU], [MAIN_MENU] and [AWAITING_REFINEMENT] whenever they return;
    they do return when the platform delivers. *)
Theorem navigation_keeps_the_session update env w :
  navigation_outcome MSG_CHOOSE_CATEGORY category_keyboard MAIN_MENU update env w
                     (fst (back_callback update env w))
                     (snd (back_callback update env w))
  /\ navigation_outcome MSG_CHOOSE_CATEGORY category_keyboard MAIN_MENU update env w
                        (fst (approve_callback update env w))
                        (snd (approve_callback update env w))
  /\ navigation_outcome MSG_SEND_REFINEMENT awaiting_keyboard AWAITING_REFINEMENT
                        update env w
                        (fst (refine_callback update env w))
                        (snd (refine_callback update env w)).
Proof.
  split; [ | split ].
  - exact (back_callback_outcome update env w).
  - exact (approve_callback_outcome update env w).
  - exact (refine_callback_outcome update env w).
Qed.

(** The chat a category pick is answered in is the one the menu callbacks
    use. *)
Lemma category_callback_chat update query :
  callback_query update = Some query ->
  match cq_message_chat_id query with
  | Some c => if c =? 0 then effective_chat update else Some c
  | None => effective_chat update
  end = callback_chat_id update.
Proof. intros H. unfold callback_chat_id. now rewrite H. Qed.

Lemma category_callback_picked update env w query c :
  callback_query update = Some query ->
  default [] (cq_data query) = Category_value c ->
  env_telegram env (length (telegram_log w)) answer_query = None ->
  wp (category_callback update) env w
     (fun r w' =>
        user_data w' = set_category (Category_value c) (user_data w)
        /\ rate_limiter w' = rate_limiter w
        /\ completion_log w' = completion_log w
        /\ match callback_chat_id update with
           | None =>
               r = Val MAIN_MENU
               /\ telegram_log w' = telegram_log w ++ [answer_query]
           | Some chat_id =>
               telegram_log w'
               = telegram_log w
                 ++ [answer_query;
                     send_message chat_id (PROMPT_MESSAGES c) (Some awaiting_keyboard)]
               /\ (forall s, r = Val s -> s = AWAITING_DESCRIPTION)
               /\ (delivers env -> r = Val AWAITING_DESCRIPTION)
           end).
Proof.
  intros Hq Hdata Hanswer.
  unfold category_callback. rewrite Hq, Hdata, Category_of_value_value.
  rewrite (category_callback_chat update query Hq).
  apply wp_bind, wp_telegram. rewrite Hanswer.
  apply wp_bind, wp_set_user_data.
  destruct (callback_chat_id update) as [chat_id |].
  - apply wp_bind, wp_telegram.
    match goal with |- match ?x with _ => _ end => destruct x eqn:Hsend end.
    + cbn [user_data rate_limiter telegram_log completion_log log_telegram
           with_user_data].
      rewrite <- app_assoc. repeat (split; [ reflexivity | ]).
      split; [ discriminate | ].
      intros Hd. rewrite Hd in Hsend by reflexivity. discriminate.
    + apply wp_ret.
      cbn [user_data rate_limiter telegram_log completion_log log_telegram
           with_user_data].
      rewrite <- app_assoc. repeat (split; [ reflexivity | ]).
      split; [ intros s [= <-]; reflexivity | reflexivity ].
  - apply wp_ret. repeat split; reflexivity.
Qed.

Lemma category_callback_unknown update env w query :
  callback_query update = Some query ->
  (forall c, default [] (cq_data query) <> Category_value c) ->
  env_telegram env (length (telegram_log w)) answer_query = None ->
  category_callback update env w = (Val MAIN_MENU, log_telegram answer_query w).
Proof.
  intros Hq Hdata Hanswer.
  unfold category_callback. rewrite Hq.
  unfold bind at 1. unfold telegram at 1. rewrite Hanswer.
  destruct (Category_of_value (default [] (cq_data query))) as [c | e] eqn:E.
  - apply Category_of_value_inv in E. destruct (Hdata c E).
  - destruct (Category_of_value_error _ _ E) as [msg ->]. reflexivity.
Qed.

(** X16: once the query is answered, [category_callback] stores the
    category exactly when the button data is the value of one: the stored
    value then reads back as that category, the prompt for it goes to the
    chat and the state is [AWAITING_DESCRIPTION] (with no chat known the
    category is stored all the same and the state is [MAIN_MENU]); any other
    data leaves the user data alone and gives [MAIN_MENU].  The limiter and
    the completion client are never touched. *)
Theorem category_pick_is_stored update env w query :
  callback_query update = Some query ->
  env_telegram env (length (telegram_log w)) answer_query = None ->
  let r := fst (category_callback update env w) in
  let w' := snd (category_callback update env w) in
  (forall c,
      default [] (cq_data query) = Category_value c ->
      user_data w' = set_category (Category_value c) (user_data w)
      /\ stored_category (user_data w') = Some c
      /\ match callback_chat_id update with
         | None =>
             r = Val MAIN_MENU
             /\ telegram_log w' = telegram_log w ++ [answer_query]
         | Some chat_id =>
             telegram_log w'
             = telegram_log w
               ++ [answer_query;
                   send_message chat_id (PROMPT_MESSAGES c) (Some awaiting_keyboard)]
             /\ (forall s, r = Val s -> s = AWAITING_DESCRIPTION)
             /\ (delivers env -> r = Val AWAITING_DESCRIPTION)
         end)
  /\ ((forall c, default [] (cq_data query) <> Category_value c) ->
      r = Val MAIN_MENU
      /\ user_data w' = user_data w
      /\ telegram_log w' = telegram_log w ++ [answer_query])
  /\ rate_limiter w' = rate_limiter w
  /\ completion_log w' = completion_log w.
Proof.
  intros Hq Hanswer r w'. subst r w'.
  assert (rate_limiter (snd (category_callback update env w)) = rate_limiter w
          /\ completion_log (snd (category_callback update env w)) = completion_log w)
    as Hframe.
  { destruct (Category_of_value (default [] (cq_data query))) as [c | e] eqn:E.
    - apply Category_of_value_inv in E.
      pose proof (category_callback_picked update env w query c Hq E Hanswer) as H.
      unfold wp in H. tauto.
    - rewrite (category_callback_unknown update env w query Hq); [ auto | | exact Hanswer ].
      intros c Hc. rewrite Hc, Category_of_value_value in E. discriminate. }
  split; [ | split; [ | exact Hframe ] ].
  - intros c Hdata.
    pose proof (category_callback_picked update env w query c Hq Hdata Hanswer) as H.
    unfold wp in H. destruct H as (Hud & _ & _ & Hlog).
    split; [ exact Hud | ]. split; [ | exact Hlog ].
    rewrite Hud. apply stored_category_set.
  - intros Hdata.
    rewrite (category_callback_unknown update env w query Hq Hdata Hanswer).
    repeat split; reflexivity.
Qed.

(** X17: picking a category and then sending a description that is
    admitted asks the completion client with the system prompt of the
    category picked and the stripped description, one to three times. *)
Theorem picked_category_drives_the_request lower pick describe env1 env2 w query c :
  callback_query pick = Some query ->
  default [] (cq_data query) = Category_value c ->
  env_telegram env1 (length (telegram_log w)) answer_query = None ->
  stripped_text describe <> [] ->
  fst (RateLimiter.is_allowed (env_now env2) (user_id_of describe) (rate_limiter w))
  = true ->
  delivers env2 ->
  let w1 := snd (category_callback pick env1 w) in
  exists n : nat,
    (1 <= n <= 3)%nat
    /\ completion_log (snd (handle_description lower describe env2 w1))
       = completion_log w
         ++ repeat (SYSTEM_PROMPTS c, stripped_text describe) n.
Proof.
  intros Hq Hdata Hanswer Htext Hadmit Hd w1.
  pose proof (category_callback_picked pick env1 w query c Hq Hdata Hanswer) as Hpick.
  unfold wp in Hpick. fold w1 in Hpick.
  destruct Hpick as (Hud & Hrl & Hlog & _).
  pose proof (handle_description_gate lower describe env2 w1) as Hg.
  unfold wp, gate_outcome in Hg.
  rewrite Hud, stored_category_set, Hrl, Hlog in Hg.
  destruct Hg as [(Hready & _) | [(_ & Hblank & _)
                 | [(_ & _ & Hrefused & _) | (_ & _ & _ & _ & Hreq)]]];
    try discriminate; try contradiction; try congruence.
  destruct Hreq as [(_ & _ & Hnd) | Hreq]; [ contradiction | exact Hreq ].
Qed.

(** X18: after a description that ended in [PROMPT_SHOWN], an admitted
    refinement asks the completion client to refine exactly the text that
    generation returned. *)
Theorem refinement_starts_from_the_last_result
        lower describe refine env1 env2 w w1 :
  handle_description lower describe env1 w = (Val PROMPT_SHOWN, w1) ->
  stripped_text refine <> [] ->
  fst (RateLimiter.is_allowed (env_now env2) (user_id_of refine) (rate_limiter w1))
  = true ->
  delivers env2 ->
  exists result (n : nat),
    completion_outcome env1 = Val result
    /\ (1 <= n <= 3)%nat
    /\ completion_log (snd (handle_refinement lower refine env2 w1))
       = completion_log w1
         ++ repeat (REFINEMENT_SYSTEM_PROMPT,
                    refinement_message result (stripped_text refine)) n.
Proof.
  intros Hrun Htext Hadmit Hd.
  destruct (handle_description_shown lower describe env1 w w1 Hrun)
    as (cv & result & _ & Hres & _ & Hud).
  destruct (completion_outcome_trimmed env1 result Hres) as (Hne & _).
  assert (stored_prompt (user_data w1) = Some result) as Hp.
  { rewrite Hud. unfold stored_prompt. simpl.
    apply truthy_true_iff in Hne. now rewrite Hne. }
  pose proof (handle_refinement_gate lower refine env2 w1) as Hg.
  unfold wp, gate_outcome in Hg. rewrite Hp in Hg. simpl default in Hg.
  destruct Hg as [(Hready & _) | [(_ & Hblank & _)
                 | [(_ & _ & Hrefused & _) | (_ & _ & _ & _ & Hreq)]]];
    try discriminate; try contradiction; try congruence.
  destruct Hreq as [(_ & _ & Hnd) | (n & Hn & E)]; [ contradiction | ].
  exists result, n. auto.
Qed.

End Navigation.

(** ** The history listing *)

Section Listing.
Import config bot botFacts wpRules handlerFacts listing.

Lemma slice_to_take {A : Type} (s : list A) (j : Z) :
  0 <= j -> slice_to s j = take (Z.to_nat j) s.
Proof.
  intros Hj. unfold slice_to, clamp_index.
  destruct (j <? 0) eqn:E; [ apply Z.ltb_lt in E; lia | ].
  destruct (Z_le_gt_dec j (len s)) as [Hle | Hgt].
  - f_equal. lia.
  - replace (Z.to_nat (Z.max 0 (Z.min (len s) j))) with (length s)
      by (unfold len in *; lia).
    rewrite firstn_all. symmetry. apply take_ge. unfold len in Hgt. lia.
Qed.

Lemma len_take {A : Type} (s : list A) (n : nat) :
  len (take n s) = Z.min (Z.of_nat n) (len s).
Proof. unfold len. rewrite length_take. lia. Qed.

Lemma history_entry_text_len cv result :
  len (he_text (history_entry cv result)) <= 201.
Proof.
  unfold history_entry. cbn [he_text].
  rewrite len_app, slice_to_take, len_take by lia.
  pose proof (len_nonneg result).
  destruct (200 <? len result);
    [ change (len ELLIPSIS) with 1 | change (len (@nil char)) with 0 ]; lia.
Qed.

(** The preview of the listing is cut from the generated text itself. *)
Lemma preview_of_generation cv result :
  slice_to (he_text (history_entry cv result)) 150 = slice_to result 150.
Proof.
  unfold history_entry. cbn [he_text].
  rewrite !slice_to_take by lia.
  change (Z.to_nat 150) with 150%nat. change (Z.to_nat 200) with 200%nat.
  destruct (200 <? len result) eqn:E.
  - apply Z.ltb_lt in E.
    rewrite take_app_le by (rewrite length_take; unfold len in E; lia).
    rewrite take_take. f_equal.
  - apply Z.ltb_ge in E. rewrite app_nil_r, take_take. f_equal.
Qed.

Lemma enumerate_lookup {A : Type} (xs : list A) (start k : nat) (x : A) :
  xs !! k = Some x -> enumerate xs start !! k = Some ((start + k)%nat, x).
Proof.
  revert start k. induction xs as [| y xs IH]; intros start k; [ discriminate | ].
  destruct k as [| k]; simpl.
  - intros [= ->]. now rewrite Nat.add_0_r.
  - intros H. rewrite (IH (S start) k H). do 2 f_equal. lia.
Qed.

Lemma length_enumerate {A : Type} (xs : list A) (start : nat) :
  length (enumerate xs start) = length xs.
Proof. revert start. induction xs; intros; simpl; auto. Qed.

(** X20: [cmd_history] writes one line per stored item, newest first and
    numbered from 1; for an item stored by a generation the line shows the
    first 150 characters of the generated text, followed by an ellipsis
    exactly when that text has at least 150 characters (so also when it has
    exactly 150 and nothing was cut). *)
Theorem history_lists_newest_first (history : list HistoryEntry) :
  length (history_lines history) = length history
  /\ (forall (k : nat) (item : HistoryEntry),
         rev history !! k = Some item ->
         history_lines history !! k = Some (history_line (S k) item))
  /\ (forall (i : nat) (cv result : str),
         history_line i (history_entry cv result)
         = int_str i ++ of_ascii ". *" ++ cv ++ of_ascii "* " ++ EM_DASH
           ++ of_ascii " " ++ slice_to result 150
           ++ (if 150 <=? len result then ELLIPSIS else [])).
Proof.
  split; [ | split ].
  - unfold history_lines. now rewrite length_map, length_enumerate, length_rev.
  - intros k item Hk. unfold history_lines.
    rewrite list_lookup_fmap, (enumerate_lookup _ 1 k item Hk). reflexivity.
  - intros i cv result. unfold history_line.
    rewrite preview_of_generation. cbn [he_category history_entry].
    rewrite slice_to_take, len_take by lia. change (Z.to_nat 150) with 150%nat.
    destruct (150 <=? len result) eqn:E.
    + apply Z.leb_le in E.
      replace (150 <=? Z.min (Z.of_nat 150) (len result)) with true
        by (symmetry; apply Z.leb_le; lia).
      reflexivity.
    + apply Z.leb_gt in E.
      replace (150 <=? Z.min (Z.of_nat 150) (len result)) with false
        by (symmetry; apply Z.leb_gt; lia).
      now rewrite !app_nil_r.
Qed.

Lemma int_str_digit (n : nat) : (n <= 9)%nat -> len (int_str n) = 1.
Proof.
  intros H. do 10 (destruct n as [| n]; [ reflexivity | ]). lia.
Qed.

Lemma history_line_len (i : nat) (e : HistoryEntry) :
  (i <= 9)%nat -> entry_fits e -> 0 < len (history_line i e) <= 164.
Proof.
  intros Hi ((c & Hc) & _).
  assert (len (he_category e) <= 5) as Hcat.
  { rewrite Hc. destruct c; vm_compute; discriminate. }
  pose proof (len_nonneg (he_category e)) as Hcat0.
  unfold history_line.
  assert (len (slice_to (he_text e) 150) <= 150) as Hp.
  { rewrite slice_to_take, len_take by lia. lia. }
  pose proof (len_nonneg (slice_to (he_text e) 150)) as Hp0.
  destruct (150 <=? len (slice_to (he_text e) 150));
    rewrite !len_app, (int_str_digit i Hi);
    change (len (of_ascii ". *")) with 3; change (len (of_ascii "* ")) with 2;
    change (len EM_DASH) with 1; change (len (of_ascii " ")) with 1;
    try change (len ELLIPSIS) with 1; lia.
Qed.

Lemma len_join_bound (sep : str) (bound : Z) (lines : list str) :
  Forall (fun l => len l <= bound) lines ->
  0 <= bound ->
  len (join sep lines) <= len lines * (bound + len sep).
Proof.
  intros H Hb. pose proof (len_nonneg sep) as Hs.
  induction H as [| x rest Hx Hrest IH]; [ unfold len; simpl; lia | ].
  destruct rest as [| y rest].
  - simpl join. unfold len at 2. simpl length. lia.
  - change (join sep (x :: y :: rest)) with (x ++ sep ++ join sep (y :: rest)).
    rewrite !len_app.
    unfold len in *. simpl length in *. nia.
Qed.

Lemma enumerate_lines_bound (xs : list HistoryEntry) (start : nat) :
  (start + length xs <= 10)%nat ->
  Forall entry_fits xs ->
  Forall (fun l => len l <= 164)
         (map (fun p => history_line (fst p) (snd p)) (enumerate xs start)).
Proof.
  revert start. induction xs as [| x xs IH]; intros start Hn Hfit; [ constructor | ].
  apply Forall_cons in Hfit. destruct Hfit as [Hx Hxs].
  simpl. constructor.
  - apply history_line_len; [ simpl in Hn; lia | exact Hx ].
  - apply IH; [ simpl in Hn; lia | exact Hxs ].
Qed.

Lemma history_fits_listing (ud : UserData) : history_fits ud -> listing_fits ud.
Proof.
  intros [Hlen Hall]. unfold listing_fits, cmd_history.
  destruct (ud_history ud) as [| e rest] eqn:E; [ reflexivity | ].
  cbn [truthy negb]. rewrite <- E in *. clear E e rest.
  change HISTORY_MAX_ITEMS with 5 in Hlen. change MAX_MESSAGE_LENGTH with 4096.
  assert (length (ud_history ud) <= 5)%nat as Hn by (unfold len in Hlen; lia).
  pose proof (enumerate_lines_bound (rev (ud_history ud)) 1) as Hlines.
  rewrite length_rev in Hlines.
  specialize (Hlines ltac:(lia) ltac:(now apply Forall_rev)).
  fold (history_lines (ud_history ud)) in Hlines.
  pose proof (len_join_bound [10%N] 164 _ Hlines ltac:(lia)) as Hjoin.
  pose proof (len_nonneg (join [10%N] (history_lines (ud_history ud)))) as Hjoin0.
  assert (len (history_lines (ud_history ud)) <= 5) as Hcount.
  { unfold len, history_lines.
    rewrite length_map, length_enumerate, length_rev. lia. }
  pose proof (len_nonneg (history_lines (ud_history ud))) as Hcount0.
  change (len [10%N]) with 1 in Hjoin.
  unfold MSG_HISTORY_HEADER. rewrite !len_app, (int_str_digit (length (ud_history ud)) ltac:(lia)).
  change (len [128220%N]) with 1. change (len (of_ascii " *Last ")) with 7.
  change (len (of_ascii " prompts:*")) with 10. change (len [10%N; 10%N]) with 2.
  nia.
Qed.

Lemma remember_fits cv c result ud :
  cv = Category_value c ->
  history_fits ud -> history_fits (remember (history_entry cv result) ud).
Proof.
  intros Hcv [_ Hall]. unfold history_fits, remember. cbn [ud_history].
  split.
  - apply length_slice_from_neg. reflexivity.
  - rewrite slice_from_neg by reflexivity. apply Forall_drop.
    apply Forall_app. split; [ exact Hall | ].
    constructor; [ | constructor ].
    split; [ exists c; exact Hcv | apply history_entry_text_len ].
Qed.

Lemma handle_description_history_fits lower update env w :
  history_fits (user_data w) ->
  history_fits (user_data (snd (handle_description lower update env w))).
Proof.
  intros Hfit.
  pose proof (handle_description_outcome lower update env w) as Hout.
  pose proof (handle_description_gate lower update env w) as Hg.
  unfold wp in Hout, Hg.
  destruct Hout as [(_ & -> & _) | (Hcalled & cv & Hcat & Hcase)]; [ exact Hfit | ].
  assert (exists c, cv = Category_value c) as (c & Hcv).
  { unfold gate_outcome in Hg.
    destruct Hg as [(_ & _ & E & _) | [(_ & _ & _ & E & _)
                   | [(_ & _ & _ & _ & E & _) | (Hready & _)]]];
      try contradiction.
    unfold stored_category in Hready. rewrite Hcat in Hready.
    destruct (Category_of_value cv) as [c |] eqn:E; [ | discriminate ].
    exists c. now apply Category_of_value_inv. }
  assert (forall result, history_fits (remember (history_entry cv result) (user_data w)))
    as Hrem by (intros result; now apply (remember_fits cv c)).
  destruct (completion_outcome env) as [result | e].
  - destruct Hcase as [(_ & ->) | (_ & _ & [-> | [-> | ->]])];
      first [ exact Hfit | apply Hrem ].
  - destruct Hcase as (-> & _). exact Hfit.
Qed.

Lemma handle_refinement_history_fits lower update env w :
  history_fits (user_data w) ->
  history_fits (user_data (snd (handle_refinement lower update env w))).
Proof.
  pose proof (handle_refinement_outcome lower update env w) as Hout.
  unfold wp, refinement_outcome in Hout. destruct Hout as (Hh & _).
  unfold history_fits. now rewrite Hh.
Qed.

Lemma category_callback_history_fits update env w :
  history_fits (user_data w) ->
  history_fits (user_data (snd (category_callback update env w))).
Proof.
  pose proof (category_callback_history update env w) as Hout.
  unfold wp in Hout. unfold history_fits. now rewrite Hout.
Qed.

(** X21: the history stays printable.  Starting from no history, the three
    handlers that write user data keep it at no more than 5 items, each with
    a category value and a text of at most 201 characters, and for such a
    history the text [cmd_history] sends is non-empty and within
    [MAX_MESSAGE_LENGTH]. *)
Theorem history_listing_fits_one_message lower update env w :
  listing_fits empty_user_data
  /\ (history_fits (user_data w) ->
      listing_fits (user_data w)
      /\ history_fits (user_data (snd (handle_description lower update env w)))
      /\ history_fits (user_data (snd (handle_refinement lower update env w)))
      /\ history_fits (user_data (snd (category_callback update env w)))).
Proof.
  split; [ reflexivity | ].
  intros Hfit. split; [ now apply history_fits_listing | ].
  split; [ now apply handle_description_history_fits | ].
  split; [ now apply handle_refinement_history_fits
         | now apply category_callback_history_fits ].
Qed.

End Listing.

(** ** More properties at sample inputs *)

Section MoreSamples.
Import config bot sample scenes navigation listing environment.

Lemma env_answering_works now text : delivers (env_answering now text)
                                     /\ delete_is_benign (env_answering now text).
Proof. split; [ intros k c _; reflexivity | intros k; left; reflexivity ]. Qed.

Lemma env_failing_works : delivers env_failing /\ delete_is_benign env_failing.
Proof. split; [ intros k c _; reflexivity | intros k; left; reflexivity ]. Qed.

Lemma call_deepseek_returns_trimmed_witness :
  of_ascii "Write a REST API" <> [] /\ trimmed (of_ascii "Write a REST API").
Proof.
  apply (call_deepseek_returns_trimmed (SYSTEM_PROMPTS CODE) (of_ascii "an idea")
                                       env_flaky fresh_world).
  reflexivity.
Defined.

Lemma requests_need_admission_witness :
  fst (RateLimiter.is_allowed 0 7 (rate_limiter code_chosen)) = true.
Proof.
  pose proof (requests_need_admission ascii_lower (text_update "an idea")
                (env_answering 0 (of_ascii "p1")) code_chosen) as H.
  cbv zeta in H. destruct H as [H _].
  apply H. vm_compute. discriminate.
Defined.

Lemma blank_text_costs_nothing_witness :
  completion_log (snd (handle_description ascii_lower (text_update "   ")
                                          env_failing code_chosen))
  = completion_log code_chosen.
Proof.
  pose proof (blank_text_costs_nothing ascii_lower (text_update "   ")
                env_failing code_chosen) as H.
  destruct H as [(_ & H & _) _]; [ reflexivity | exact H ].
Defined.

Lemma refused_call_is_dropped_witness :
  fst (handle_description ascii_lower (text_update "an idea")
                          (env_answering 5 (of_ascii "p1")) code_chosen_busy)
  = Val AWAITING_DESCRIPTION.
Proof.
  pose proof (refused_call_is_dropped ascii_lower (text_update "an idea")
                (env_answering 5 (of_ascii "p1")) code_chosen_busy) as H.
  cbv zeta in H.
  destruct H as [H _]; [ vm_compute; discriminate | reflexivity | ].
  destruct (H CODE eq_refl) as (_ & _ & _ & _ & Hstate).
  apply Hstate. apply env_answering_works.
Defined.

Lemma description_dialogue_witness :
  telegram_log (snd (handle_description ascii_lower (text_update "an idea")
                                        env_failing code_chosen))
  = [reply_text MSG_SENDING None true;
     status_edit_text MSG_ERROR_UNKNOWN;
     reply_text MSG_CHOOSE_CATEGORY (Some category_keyboard) true].
Proof.
  etransitivity.
  - apply (description_dialogue ascii_lower (text_update "an idea")
                                env_failing code_chosen CODE).
    + reflexivity.
    + vm_compute. discriminate.
    + reflexivity.
    + apply env_failing_works.
    + apply env_failing_works.
  - reflexivity.
Defined.

Lemma refinement_dialogue_witness :
  telegram_log (snd (handle_refinement ascii_lower (text_update "make it shorter")
                                       (env_answering 0 (of_ascii "Write an API"))
                                       prompt_shown))
  = [reply_text MSG_SENDING None true;
     status_delete;
     reply_text MSG_HERE_PROMPT None true;
     reply_text (Generated (of_ascii "Write an API")) None false;
     reply_text MSG_APPROVE_OR_REFINE (Some approve_refine_keyboard) true].
Proof.
  etransitivity.
  - apply (refinement_dialogue ascii_lower (text_update "make it shorter")
                               (env_answering 0 (of_ascii "Write an API"))
                               prompt_shown (of_ascii "Write a REST API")).
    + reflexivity.
    + vm_compute. discriminate.
    + reflexivity.
    + apply env_answering_works.
    + apply env_answering_works.
  - reflexivity.
Defined.

Lemma category_pick_is_stored_witness :
  stored_category
    (user_data (snd (category_callback (tap "video") env_failing code_chosen)))
  = Some VIDEO.
Proof.
  pose proof (category_pick_is_stored
                (tap "video") env_failing code_chosen
                {| cq_data := Some (of_ascii "video"); cq_message_chat_id := Some 7 |}
                eq_refl eq_refl) as H.
  cbv zeta in H. destruct H as [H _].
  destruct (H VIDEO eq_refl) as (_ & Hstored & _). exact Hstored.
Defined.

Lemma picked_category_drives_the_request_witness :
  exists n : nat,
    (1 <= n <= 3)%nat
    /\ completion_log
         (snd (handle_description ascii_lower (text_update "a cat on a roof")
                 env_flaky
                 (snd (category_callback (tap "image") env_failing fresh_world))))
       = repeat (SYSTEM_PROMPTS IMAGE, of_ascii "a cat on a roof") n.
Proof.
  apply (picked_category_drives_the_request
           ascii_lower (tap "image") (text_update "a cat on a roof")
           env_failing env_flaky fresh_world
           {| cq_data := Some (of_ascii "image"); cq_message_chat_id := Some 7 |}
           IMAGE).
  - reflexivity.
  - reflexivity.
  - reflexivity.
  - vm_compute. discriminate.
  - reflexivity.
  - intros k c _. reflexivity.
Defined.

Lemma refinement_starts_from_the_last_result_witness :
  exists result (n : nat),
    completion_outcome (env_answering 0 (of_ascii "p1")) = Val result
    /\ (1 <= n <= 3)%nat
    /\ completion_log
         (snd (handle_refinement ascii_lower (text_update "make it shorter") env_flaky
                                 (generate 0 "p1" code_chosen)))
       = completion_log (generate 0 "p1" code_chosen)
         ++ repeat (REFINEMENT_SYSTEM_PROMPT,
                    refinement_message result (of_ascii "make it shorter")) n.
Proof.
  apply (refinement_starts_from_the_last_result
           ascii_lower (text_update "an idea") (text_update "make it shorter")
           (env_answering 0 (of_ascii "p1")) env_flaky code_chosen
           (generate 0 "p1" code_chosen)).
  - reflexivity.
  - vm_compute. discriminate.
  - reflexivity.
  - intros k c _. reflexivity.
Defined.

Lemma history_lists_newest_first_witness :
  history_lines [item "p1"; item "p2"] !! 0%nat
  = Some (history_line 1 (item "p2")).
Proof.
  apply (proj1 (proj2 (history_lists_newest_first [item "p1"; item "p2"]))).
  reflexivity.
Defined.

Lemma history_listing_fits_one_message_witness :
  listing_fits (user_data six_generations).
Proof.
  pose proof (history_listing_fits_one_message
                ascii_lower (text_update "an idea") env_failing six_generations) as H.
  destruct H as [_ H].
  apply H. split.
  - vm_compute. discriminate.
  - repeat constructor; first [ exists CODE; reflexivity | vm_compute; discriminate ].
Defined.

Lemma settings_are_present_and_trimmed_witness :
  of_ascii "123:abc" <> [] /\ trimmed (of_ascii "123:abc")
  /\ of_ascii "sk-1" <> [] /\ trimmed (of_ascii "sk-1").
Proof.
  apply (proj1 (proj2 (settings_are_present_and_trimmed
                         (of_ascii "/srv/bot/.env") getenv_both))).
  reflexivity.
Defined.

End MoreSamples.
